(** * ksshaskpass: prompt classification and wallet lookup

    A shallow embedding of [src/main.cpp] (the whole program is that one
    file): the regular expressions [parsePrompt] tries one after the other,
    [parsePrompt] itself, and the part of [main] that consults KWallet,
    migrates legacy keys, asks the user and writes the answer to standard
    output.

    Modelling conventions.
    - A [QString] that may be null (the identifier) is an [option string];
      [None] is the null string.  The variable [item] of [main] is only ever
      tested with [isEmpty] and written with [<<], which do not tell a null
      string from an empty one, so it is a plain [string].
    - Characters are bytes ([ascii]).  The patterns of the source are ASCII;
      the dot of a pattern stands for one character that is not a line
      feed.
    - [QRegularExpression] is PCRE2 with Qt's default options: a backtracking
      matcher, greedy and lazy quantifiers, [^] at the start of the subject,
      [$] at the very end of the subject or before a final line feed,
      and a search for the leftmost match when the pattern is not anchored.
    - KWallet and the dialogs are outside the repository.  The wallet is a
      finite map from folder names to finite maps from keys to passwords;
      the dialogs are answers supplied by the environment. *)

From Stdlib Require Import Ascii String List Bool Arith Lia.
From stdpp Require Import base option strings gmap fin_maps.

Local Open Scope string_scope.
Local Open Scope list_scope.

(** ** Characters and strings *)

Definition LF : ascii := "010"%char.
Definition DQUOTE : ascii := "034"%char.

Definition nl : string := String LF "".

(** ** Regular expressions: the PCRE subset used by [parsePrompt] *)

Module Regex.

(** The constructs that occur in the twenty patterns of the source. *)
Inductive regex : Type :=
| Eps                                   (* empty pattern *)
| Chr (a : ascii)                       (* a literal character *)
| Bol                                   (* [^] *)
| Eol                                   (* [$] *)
| Seq (r1 r2 : regex)                   (* concatenation *)
| Alt (r1 r2 : regex)                   (* [r1|r2] *)
| Opt (r : regex)                       (* greedy [r?] *)
| Many (greedy : bool)                  (* dot-star, greedy or lazy *)
| Group (n : nat) (r : regex).          (* capturing group number [n] *)

(** A literal run of characters. *)
Fixpoint lit (s : string) : regex :=
  match s with
  | EmptyString => Eps
  | String a s' => Seq (Chr a) (lit s')
  end.

(** Concatenation of a list of pieces. *)
Fixpoint cat (rs : list regex) : regex :=
  match rs with
  | [] => Eps
  | r :: rs' => Seq r (cat rs')
  end.

(** Captured substrings, most recent binding first. *)
Definition caps : Type := list (nat * string).

Fixpoint cap_lookup (n : nat) (c : caps) : option string :=
  match c with
  | [] => None
  | (m, v) :: c' => if Nat.eqb n m then Some v else cap_lookup n c'
  end.

Definition is_newline (a : ascii) : bool := Ascii.eqb a LF.

(** [$] without PCRE2_DOLLAR_ENDONLY and without multiline mode. *)
Definition at_end (s : string) : bool :=
  match s with
  | EmptyString => true
  | String a EmptyString => is_newline a
  | _ => false
  end.

(** The first [n] characters of [s]. *)
Fixpoint prefix (n : nat) (s : string) : string :=
  match n, s with
  | S n', String a s' => String a (prefix n' s')
  | _, _ => EmptyString
  end.

(** What is left to do after a piece of the pattern has matched: the rest
    of the subject, the offset reached and the captures so far. *)
Definition cont : Type := string -> nat -> caps -> option caps.

(** The greedy dot-star: take as many characters as possible, give back
    one at a time. *)
Fixpoint many_greedy (s : string) (pos : nat) (c : caps) (k : cont)
  : option caps :=
  match s with
  | EmptyString => k s pos c
  | String a s' =>
      if is_newline a then k s pos c
      else match many_greedy s' (S pos) c k with
           | Some res => Some res
           | None => k s pos c
           end
  end.

(** The lazy dot-star: take as few characters as possible, one more on
    failure. *)
Fixpoint many_lazy (s : string) (pos : nat) (c : caps) (k : cont)
  : option caps :=
  match k s pos c with
  | Some res => Some res
  | None =>
      match s with
      | EmptyString => None
      | String a s' =>
          if is_newline a then None else many_lazy s' (S pos) c k
      end
  end.

(** The backtracking matcher, in continuation-passing style.  [s] is the
    subject from offset [pos] on. *)
Fixpoint rmatch (r : regex) (s : string) (pos : nat) (c : caps) (k : cont)
  : option caps :=
  match r with
  | Eps => k s pos c
  | Chr a =>
      match s with
      | String b s' => if Ascii.eqb a b then k s' (S pos) c else None
      | EmptyString => None
      end
  | Bol => if Nat.eqb pos 0 then k s pos c else None
  | Eol => if at_end s then k s pos c else None
  | Seq r1 r2 => rmatch r1 s pos c (fun s' pos' c' => rmatch r2 s' pos' c' k)
  | Alt r1 r2 =>
      match rmatch r1 s pos c k with
      | Some res => Some res
      | None => rmatch r2 s pos c k
      end
  | Opt r1 =>
      match rmatch r1 s pos c k with
      | Some res => Some res
      | None => k s pos c
      end
  | Many true => many_greedy s pos c k
  | Many false => many_lazy s pos c k
  | Group n r1 =>
      rmatch r1 s pos c
        (fun s' pos' c' => k s' pos' ((n, prefix (pos' - pos) s) :: c'))
  end.

Definition accept : cont := fun _ _ c => Some c.

(** The leftmost match: try every start offset in turn. *)
Fixpoint search (r : regex) (s : string) (pos : nat) : option caps :=
  match rmatch r s pos [] accept with
  | Some res => Some res
  | None =>
      match s with
      | EmptyString => None
      | String _ s' => search r s' (S pos)
      end
  end.

End Regex.

Import Regex.

(** ** The Qt API used by the source *)

(** A possibly null [QString]. *)
Definition QString : Type := option string.

(** [QRegularExpressionMatch]: [None] when [hasMatch()] is false. *)
Definition QRegularExpressionMatch : Type := option caps.

(** [QRegularExpression(pattern).match(subject)]. *)
Definition match_ (re : regex) (subject : string) : QRegularExpressionMatch :=
  search re subject 0.

Definition hasMatch (m : QRegularExpressionMatch) : bool :=
  match m with Some _ => true | None => false end.

(** [match.captured(n)]: the null string when group [n] took no part in
    the match. *)
Definition captured (m : QRegularExpressionMatch) (n : nat) : QString :=
  match m with
  | Some c => cap_lookup n c
  | None => None
  end.

Definition isNull (q : QString) : bool :=
  match q with None => true | Some _ => false end.

Definition isEmpty (s : string) : bool :=
  match s with EmptyString => true | String _ _ => false end.

(** ** The patterns of [parsePrompt], in source order *)

Module Patterns.

(** The user-at-host group: any run, an at sign, any run. *)
Definition user_at_host : regex := cat [Many true; Chr "@"; Many true].

(** The optional suffix of the two ssh-add patterns. *)
Definition confirm_each_use (n : nat) : regex :=
  Opt (Group n (lit " (will confirm each use)")).

(** line 43 *)
Definition re_ssh_password : regex :=
  cat [Bol; Group 1 user_at_host; lit "'s password";
       Opt (Group 2 (lit " (JPAKE)")); lit ": "; Eol].

(** line 53 *)
Definition re_password_change : regex :=
  cat [Bol; Group 1 (Alt (lit "Enter") (lit "Retype")); lit " ";
       Group 2 user_at_host; lit "'s ";
       Group 3 (Alt (lit "old") (lit "new")); lit " password: "; Eol].

(** line 63 *)
Definition re_key_passphrase : regex :=
  cat [Bol; lit "Enter passphrase for"; Opt (Group 1 (lit " RSA"));
       lit " key '"; Group 2 (Many true); lit "': "; Eol].

(** line 73 *)
Definition re_add_passphrase : regex :=
  cat [Bol; lit "Enter passphrase for "; Group 1 (Many false);
       confirm_each_use 2; lit ": "; Eol].

(** line 84 *)
Definition re_bad_passphrase : regex :=
  cat [Bol; lit "Bad passphrase, try again for "; Group 1 (Many false);
       confirm_each_use 2; lit ": "; Eol].

(** line 94 (the source has no start anchor here) *)
Definition re_pin : regex :=
  cat [lit "Enter PIN for '"; Group 1 (Many true); lit "': "; Eol].

(** line 103 *)
Definition re_shared_connection : regex :=
  cat [Bol; Group 1 (Alt (lit "Allow") (lit "Terminate"));
       lit " shared connection to "; Group 2 (Many true); lit "? "; Eol].

(** line 112 *)
Definition re_open : regex :=
  cat [Bol; lit "Open ";
       Opt (Group 1 (cat [Many true; lit " on "; Many true])); Eol].

(** line 121 *)
Definition re_forward : regex :=
  cat [Bol; lit "Allow forward to ";
       Group 1 (cat [Many true; Chr ":"; Many true]); lit "? "; Eol].

(** line 130 (the question mark is not escaped in the source: it makes
    the group optional) *)
Definition re_disable_mux : regex :=
  cat [Bol; lit "Disable further multiplexing on shared connection to ";
       Opt (Group 1 (Many true)); lit " "; Eol].

(** line 139 *)
Definition re_use_key : regex :=
  cat [Bol; lit "Allow use of key "; Opt (Group 1 (Many true)); Chr LF;
       lit "Key fingerprint "; Many true; Chr "."; Eol].

(** line 148 *)
Definition re_add_key : regex :=
  cat [Bol; lit "Add key "; Group 1 (Many true); lit " ("; Many true;
       lit ") to agent?"; Eol].

(** line 158 *)
Definition re_imap_password : regex :=
  cat [Bol; lit "Password ("; Group 1 user_at_host; lit "): "; Eol].

(** line 168 *)
Definition re_username : regex := cat [Bol; lit "Username: "; Eol].

(** line 178 *)
Definition re_password : regex := cat [Bol; lit "Password: "; Eol].

(** line 188 *)
Definition re_username_for : regex :=
  cat [Bol; lit "Username for '"; Group 1 (Many true); lit "': "; Eol].

(** line 198 *)
Definition re_password_for : regex :=
  cat [Bol; lit "Password for '"; Group 1 (Many true); lit "': "; Eol].

(** line 207 *)
Definition re_lfs_username : regex :=
  cat [Bol; lit "Username for "; Chr DQUOTE; Group 1 (Many false);
       Chr DQUOTE; Eol].

(** line 216 *)
Definition re_lfs_password : regex :=
  cat [Bol; lit "Password for "; Chr DQUOTE; Group 1 (Many false);
       Chr DQUOTE; Eol].

(** line 225 *)
Definition re_hg_password : regex :=
  cat [Bol; Group 1 (Many false); lit "'s password: "; Eol].

End Patterns.

Import Patterns.

(** ** [parsePrompt] *)

(** [enum Type] of the source. *)
Inductive Type_ : Type := TypePassword | TypeClearText | TypeConfirm.

(** The three variables [parsePrompt] receives by reference. *)
Record Vars : Type := mkVars {
  identifier : QString;
  ignoreWallet : bool;
  type : Type_
}.

(** A [qCWarning(LOG_KSSHASKPASS)] line: the pieces streamed into it. *)
Inductive Diagnostic : Type := qCWarning (pieces : list string).

Definition found (id : QString) (t : Type_) (ignore : bool)
  : Vars * list Diagnostic :=
  (mkVars id ignore t, []).

Definition parsePrompt (prompt : string) (v : Vars) : Vars * list Diagnostic :=
  let m := match_ re_ssh_password prompt in
  if hasMatch m then found (captured m 1) TypePassword false else
  let m := match_ re_password_change prompt in
  if hasMatch m then found (captured m 2) TypePassword true else
  let m := match_ re_key_passphrase prompt in
  if hasMatch m then found (captured m 2) TypePassword false else
  let m := match_ re_add_passphrase prompt in
  if hasMatch m then found (captured m 1) TypePassword false else
  let m := match_ re_bad_passphrase prompt in
  if hasMatch m then found (captured m 1) TypePassword true else
  let m := match_ re_pin prompt in
  if hasMatch m then found (captured m 1) TypePassword false else
  let m := match_ re_shared_connection prompt in
  if hasMatch m then found (captured m 2) TypeConfirm true else
  let m := match_ re_open prompt in
  if hasMatch m then found (captured m 1) TypeConfirm true else
  let m := match_ re_forward prompt in
  if hasMatch m then found (captured m 1) TypeConfirm true else
  let m := match_ re_disable_mux prompt in
  if hasMatch m then found (captured m 1) TypeConfirm true else
  let m := match_ re_use_key prompt in
  if hasMatch m then found (captured m 1) TypeConfirm true else
  let m := match_ re_add_key prompt in
  if hasMatch m then found (captured m 1) TypeConfirm true else
  let m := match_ re_imap_password prompt in
  if hasMatch m then found (captured m 1) TypePassword false else
  let m := match_ re_username prompt in
  if hasMatch m then found None TypeClearText true else
  let m := match_ re_password prompt in
  if hasMatch m then found None TypePassword true else
  let m := match_ re_username_for prompt in
  if hasMatch m then found (captured m 1) TypeClearText false else
  let m := match_ re_password_for prompt in
  if hasMatch m then found (captured m 1) TypePassword false else
  let m := match_ re_lfs_username prompt in
  if hasMatch m then found (captured m 1) TypeClearText false else
  let m := match_ re_lfs_password prompt in
  if hasMatch m then found (captured m 1) TypePassword false else
  let m := match_ re_hg_password prompt in
  if hasMatch m then found (captured m 1) TypePassword false else
  (v, [qCWarning ["Unable to parse phrase"; prompt]]).

(** The values [main] gives the three variables before the call. *)
Definition initial_vars : Vars := mkVars None false TypePassword.

(** ** The environment of [main]: KWallet, the dialogs, standard output *)

(** The calls [main] makes on the wallet, in the order it makes them. *)
Inductive Call : Type :=
| OpenWallet
| HasFolder (name : string)
| SetFolder (name : string)
| CreateFolder (name : string)
| ReadPassword (key : string)
| WritePassword (key value : string)
| RenameEntry (oldName newName : string).

(** The state [main] runs in.  [folders] is the content of the network
    wallet; [available] says whether [openWallet] hands out a wallet;
    [current] is the folder chosen by [setFolder]. *)
Record World : Type := mkWorld {
  available : bool;
  folders : gmap string (gmap string string);
  current : string;
  calls : list Call;
  log : list Diagnostic;
  stdout : string
}.

(** The answers of the user.  [questionYesNo text] is whether the
    confirmation box is accepted; [exec text keep] is [None] when the
    password dialog is cancelled and otherwise the password typed and the
    state of the Keep box ([keep] says whether the box is shown). *)
Record Dialogs : Type := mkDialogs {
  questionYesNo : string -> bool;
  exec : string -> bool -> option (string * bool)
}.

(** State passing: a computation returns a value and the new world. *)
Definition M (A : Type) : Type := World -> A * World.

Definition ret {A : Type} (a : A) : M A := fun w => (a, w).

Definition bind {A B : Type} (m : M A) (f : A -> M B) : M B :=
  fun w => let (a, w') := m w in f a w'.

Notation "'do' x <- m ; k" := (bind m (fun x => k))
  (at level 10, x name, m at level 100, k at level 200).
Notation "m ;; k" := (bind m (fun _ => k))
  (at level 100, k at level 200, right associativity).

Definition called (c : Call) : M unit :=
  fun w => (tt, mkWorld (available w) (folders w) (current w)
                  (calls w ++ [c]) (log w) (stdout w)).

Definition warn (d : Diagnostic) : M unit :=
  fun w => (tt, mkWorld (available w) (folders w) (current w)
                  (calls w) (log w ++ [d]) (stdout w)).

(** [QTextStream(stdout) << s]. *)
Definition print (s : string) : M unit :=
  fun w => (tt, mkWorld (available w) (folders w) (current w)
                  (calls w) (log w) (stdout w +:+ s)).

Definition get_folders : M (gmap string (gmap string string)) :=
  fun w => (folders w, w).

Definition get_current : M string := fun w => (current w, w).

Definition put_folders (fs : gmap string (gmap string string)) : M unit :=
  fun w => (tt, mkWorld (available w) fs (current w)
                  (calls w) (log w) (stdout w)).

Definition put_current (name : string) : M unit :=
  fun w => (tt, mkWorld (available w) (folders w) name
                  (calls w) (log w) (stdout w)).

(** *** KWallet

    KWallet is an external library: the repository only calls it.  Its
    operations are modelled after the credential store interface of the
    specification, on the finite maps of the world. *)

(** Modelled from the spec: [openStore], which gives a handle or none.
    The result is whether [KWallet::Wallet::openWallet] gave a wallet
    rather than a null pointer. *)
Definition openWallet : M bool :=
  called OpenWallet ;; fun w => (available w, w).

(** Modelled from the spec: [hasFolder(handle, name)]. *)
Definition hasFolder (name : string) : M bool :=
  called (HasFolder name) ;;
  do fs <- get_folders ;
  ret (bool_decide (is_Some (fs !! name))).

(** Modelled from the spec: [selectFolder(handle, name)]. *)
Definition setFolder (name : string) : M unit :=
  called (SetFolder name) ;; put_current name.

(** Modelled from the spec: [createFolder(handle, name)], which adds an
    empty folder when there is none of that name. *)
Definition createFolder (name : string) : M unit :=
  called (CreateFolder name) ;;
  do fs <- get_folders ;
  match fs !! name with
  | Some _ => ret tt
  | None => put_folders (<[name := ∅]> fs)
  end.

(** The entries of the selected folder. *)
Definition entries (fs : gmap string (gmap string string)) (cur : string)
  : gmap string string :=
  default ∅ (fs !! cur).

(** Modelled from the spec: what [read(handle, key)] gives for a key of a
    folder, the stored string or the empty string when the key is not
    there. *)
Definition stored (es : gmap string string) (key : string) : string :=
  default "" (es !! key).

(** Modelled from the spec: [read(handle, key)], on the selected folder. *)
Definition readPassword (key : string) : M string :=
  called (ReadPassword key) ;;
  do fs <- get_folders ;
  do cur <- get_current ;
  ret (stored (entries fs cur) key).

(** Modelled from the spec: [write(handle, key, value)], on the selected
    folder.  [main] creates the folder before it writes. *)
Definition writePassword (key value : string) : M unit :=
  called (WritePassword key value) ;;
  do fs <- get_folders ;
  do cur <- get_current ;
  put_folders (alter (insert key value) cur fs).

(** Modelled from the spec: [rename(handle, oldKey, newKey)] on the entries
    of a folder.  The value of the old key moves to the new key and
    replaces what the new key held; the old key is removed.  Nothing
    happens when the old key is not there. *)
Definition rename (oldName newName : string) (es : gmap string string)
  : gmap string string :=
  match es !! oldName with
  | Some v => <[newName := v]> (delete oldName es)
  | None => es
  end.

(** Modelled from the spec: [rename(handle, oldKey, newKey)], on the
    selected folder. *)
Definition renameEntry (oldName newName : string) : M unit :=
  called (RenameEntry oldName newName) ;;
  do fs <- get_folders ;
  do cur <- get_current ;
  put_folders (alter (rename oldName newName) cur fs).

(** ** [main] *)

(** [templ.arg(a)] for a template whose only place marker is [%0]: every
    occurrence of the marker is replaced by [a]. *)
Fixpoint arg (templ : string) (a : string) : string :=
  match templ with
  | String "%" (String "0" rest) => a +:+ arg rest a
  | String c rest => String c (arg rest a)
  | EmptyString => EmptyString
  end.

(** The templates of the legacy keys, line 295. *)
Definition legacy_templates : list string := ["'%0'"; "%0 "; "'%0' "].

(** The loop of lines 295-303.  It starts with [item] empty and gives the
    value of [item] when it ends, by [break] or at the end of the list. *)
Fixpoint legacy_loop (templs : list string) (identifier : string) : M string :=
  match templs with
  | [] => ret ""
  | templ :: rest =>
      let keyFile := arg templ identifier in
      do item <- readPassword keyFile ;
      if negb (isEmpty item) then
        warn (qCWarning ["Detected legacy key for "; identifier;
                         ", enabling workaround"]) ;;
        renameEntry keyFile identifier ;;
        ret item
      else legacy_loop rest identifier
  end.

(** Lines 283-305: open the wallet unless told to ignore it, and look the
    identifier up.  Gives the wallet pointer (is it non-null) and [item]. *)
Definition lookup (walletFolder : string) (v : Vars) : M (bool * string) :=
  do wallet <- (if ignoreWallet v then ret false else openWallet) ;
  match negb (ignoreWallet v), identifier v, wallet with
  | true, Some id, true =>
      do has <- hasFolder walletFolder ;
      if has then
        setFolder walletFolder ;;
        do item <- readPassword id ;
        if isEmpty item then
          do item <- legacy_loop legacy_templates id ;
          ret (wallet, item)
        else ret (wallet, item)
      else ret (wallet, "")
  | _, _, _ => ret (wallet, "")
  end.

(** Lines 313-367, the [switch]: nothing came from the wallet, ask the
    user.  [None] stands for the two [return 1] of a cancelled dialog;
    otherwise the result is the value of [item] after the [switch]. *)
Definition ask (ui : Dialogs) (walletFolder dialog : string) (v : Vars)
    (wallet : bool) : M (option string) :=
  match type v with
  | TypeConfirm =>
      if negb (questionYesNo ui dialog) then ret None
      else ret (Some ("yes" +:+ nl))
  | TypeClearText
  | TypePassword =>
      match exec ui dialog wallet with
      | Some (item, keepPassword) =>
          (match identifier v with
           | Some id =>
               if wallet && keepPassword then
                 do has <- hasFolder walletFolder ;
                 (if has then ret tt else createFolder walletFolder) ;;
                 setFolder walletFolder ;;
                 writePassword id item
               else ret tt
           | None => ret tt
           end) ;;
          ret (Some item)
      | None => ret None
      end
  end.

(** The name [main] stores its entries under: the application name. *)
Definition applicationName : string := "ksshaskpass".

(** Lines 269-280: the dialog text and the three variables. *)
Definition parse_arguments (positionalArguments : list string)
  : M (string * Vars) :=
  match positionalArguments with
  | [] => ret ("Please enter passphrase", initial_vars)
  | prompt :: _ =>
      let (v, ds) := parsePrompt prompt initial_vars in
      foldr (fun d k => warn d ;; k) (ret (prompt, v)) ds
  end.

(** Lines 269-305: [main] up to the end of the wallet lookup. *)
Definition main_lookup (positionalArguments : list string)
  : M (string * Vars * bool * string) :=
  do pv <- parse_arguments positionalArguments ;
  let (dialog, v) := pv : string * Vars in
  do wi <- lookup applicationName v ;
  let (wallet, item) := wi : bool * string in
  ret (dialog, v, wallet, item).

(** [main], from the positional arguments on.  The result is the exit
    code. *)
Definition main (positionalArguments : list string) (ui : Dialogs) : M nat :=
  do r <- main_lookup positionalArguments ;
  let '(dialog, v, wallet, item) := r in
  if negb (isEmpty item) then print item ;; ret 0
  else
    do answer <- ask ui applicationName dialog v wallet ;
    match answer with
    | None => ret 1
    | Some item => print item ;; print nl ;; ret 0
    end.

(** ** Vocabulary of the specification *)

(** The specification's [allow_store_lookup] is the negation of the
    source's [ignoreWallet]. *)
Definition allow_store_lookup (v : Vars) : bool := negb (ignoreWallet v).

(** The keys read from the wallet, in order. *)
Fixpoint reads_of (cs : list Call) : list string :=
  match cs with
  | [] => []
  | ReadPassword k :: cs' => k :: reads_of cs'
  | _ :: cs' => reads_of cs'
  end.

(** The renames done on the wallet, in order. *)
Fixpoint renames_of (cs : list Call) : list (string * string) :=
  match cs with
  | [] => []
  | RenameEntry a b :: cs' => (a, b) :: renames_of cs'
  | _ :: cs' => renames_of cs'
  end.

(** The three legacy forms of an identifier. *)
Definition quoted (id : string) : string := "'" +:+ id +:+ "'".
Definition spaced (id : string) : string := id +:+ " ".
Definition quoted_spaced (id : string) : string := "'" +:+ id +:+ "' ".

(** The twenty patterns, in the order [parsePrompt] tries them. *)
Definition patterns : list regex :=
  [re_ssh_password; re_password_change; re_key_passphrase; re_add_passphrase;
   re_bad_passphrase; re_pin; re_shared_connection; re_open; re_forward;
   re_disable_mux; re_use_key; re_add_key; re_imap_password; re_username;
   re_password; re_username_for; re_password_for; re_lfs_username;
   re_lfs_password; re_hg_password].

(** A prompt none of the patterns matches. *)
Definition unrecognized (prompt : string) : Prop :=
  Forall (fun re => match_ re prompt = None) patterns.

(** A world with the given wallet and nothing done yet. *)
Definition fresh (avail : bool) (fs : gmap string (gmap string string))
  : World :=
  mkWorld avail fs "" [] [] "".

(** Pattern text, PCRE syntax, to compare with the string literals of the
    source. *)
Definition is_meta (a : ascii) : bool :=
  existsb (Ascii.eqb a)
    (list_ascii_of_string "\.^$|?*+()[]{}").

Fixpoint show (r : regex) : string :=
  match r with
  | Eps => ""
  | Chr a =>
      if Ascii.eqb a LF then "\n"
      else if is_meta a then String "\" (String a "")
      else String a ""
  | Bol => "^"
  | Eol => "$"
  | Seq r1 r2 => show r1 +:+ show r2
  | Alt r1 r2 => show r1 +:+ "|" +:+ show r2
  | Opt r1 => show r1 +:+ "?"
  | Many true => ".*"
  | Many false => ".*?"
  | Group _ r1 => "(" +:+ show r1 +:+ ")"
  end.

(** The world after the wallet was opened, the folder chosen and the
    identifier read. *)
Definition after_canonical_read (f id : string) (w : World) : World :=
  mkWorld (available w) (folders w) f
    (calls w ++ [OpenWallet; HasFolder f; SetFolder f; ReadPassword id])
    (log w) (stdout w).

(** The world after a read of [key] that gave nothing. *)
Definition after_miss (key : string) (w : World) : World :=
  mkWorld (available w) (folders w) (current w)
    (calls w ++ [ReadPassword key]) (log w) (stdout w).

(** The world after a read of [key] that gave a secret: the warning and the
    rename follow. *)
Definition after_hit (key id : string) (w : World) : World :=
  mkWorld (available w)
    (alter (rename key id) (current w) (folders w)) (current w)
    (calls w ++ [ReadPassword key; RenameEntry key id])
    (log w ++ [qCWarning ["Detected legacy key for "; id;
                          ", enabling workaround"]])
    (stdout w).

(** The result of the whole loop, on a world whose selected folder is
    [es]. *)
Definition loop_result (id : string) (es : gmap string string) (w : World)
  : string * World :=
  let q := quoted id in
  let s := spaced id in
  let qs := quoted_spaced id in
  if negb (isEmpty (stored es q)) then (stored es q, after_hit q id w)
  else if negb (isEmpty (stored es s))
  then (stored es s, after_hit s id (after_miss q w))
  else if negb (isEmpty (stored es qs))
  then (stored es qs, after_hit qs id (after_miss s (after_miss q w)))
  else ("", after_miss qs (after_miss s (after_miss q w))).

(** The key of the first legacy form that holds a secret. *)
Definition first_hit (id : string) (es : gmap string string) (key : string)
  : Prop :=
  stored es key <> "" /\
  (key = quoted id \/
   (key = spaced id /\ stored es (quoted id) = "") \/
   (key = quoted_spaced id /\ stored es (quoted id) = "" /\
    stored es (spaced id) = "")).

(** What the dialog of [main] hands back: the fixed answer of an accepted
    confirmation, the text typed into an accepted password dialog, or
    nothing when the dialog is cancelled. *)
Definition collected (ui : Dialogs) (dialog : string) (v : Vars)
    (wallet : bool) : option string :=
  match type v with
  | TypeConfirm =>
      if questionYesNo ui dialog then Some ("yes" +:+ nl) else None
  | _ => fst <$> exec ui dialog wallet
  end.

(** [s'] is what is left of [s] after some characters. *)
Definition suffix_of (s' s : string) : Prop := exists p, s = p +:+ s'.

(** No line feed in [s]. *)
Fixpoint no_newline (s : string) : bool :=
  match s with
  | EmptyString => true
  | String a s' => negb (is_newline a) && no_newline s'
  end.

(** The prompt of [mux.c] for a host [x]. *)
Definition disable_mux_prompt (x : string) : string :=
  "Disable further multiplexing on shared connection to " +:+ x +:+ "? ".

(** Nothing is stored for [id] in a folder: neither under the identifier
    nor under one of its three legacy forms. *)
Definition nothing_stored (es : gmap string string) (id : string) : Prop :=
  stored es id = "" /\ stored es (quoted id) = "" /\
  stored es (spaced id) = "" /\ stored es (quoted_spaced id) = "".

(** The user never ticks the Keep box. *)
Definition never_keeps (ui : Dialogs) : Prop :=
  forall (text : string) (shown : bool) (pw : string),
    exec ui text shown <> Some (pw, true).

(** The world after some warnings were logged. *)
Definition logged (ds : list Diagnostic) (w : World) : World :=
  mkWorld (available w) (folders w) (current w) (calls w) (log w ++ ds)
    (stdout w).

(** The three variables after lines 269-280. *)
Definition parsed (positionalArguments : list string) : Vars :=
  match positionalArguments with
  | [] => initial_vars
  | prompt :: _ => (parsePrompt prompt initial_vars).1
  end.

(** The warnings of lines 269-280. *)
Definition parse_warnings (positionalArguments : list string)
  : list Diagnostic :=
  match positionalArguments with
  | [] => []
  | prompt :: _ => (parsePrompt prompt initial_vars).2
  end.

(** The text of the dialog. *)
Definition dialog_text (positionalArguments : list string) : string :=
  match positionalArguments with
  | [] => "Please enter passphrase"
  | prompt :: _ => prompt
  end.

(** Every match of [r] goes through group [n]. *)
Fixpoint sets (n : nat) (r : regex) : bool :=
  match r with
  | Group m r1 => Nat.eqb n m || sets n r1
  | Seq r1 r2 => sets n r1 || sets n r2
  | Alt r1 r2 => sets n r1 && sets n r2
  | _ => false
  end.

(** A continuation that does not lose group [n]. *)
Definition keeps (n : nat) (k : cont) : Prop :=
  forall s p c res,
    k s p c = Some res -> is_Some (cap_lookup n c) ->
    is_Some (cap_lookup n res).

(** The character [a] occurs in [s]. *)
Fixpoint has_char (a : ascii) (s : string) : bool :=
  match s with
  | EmptyString => false
  | String b s' => Ascii.eqb a b || has_char a s'
  end.

(** The prompt of [ssh-pkcs11.c] for a token label [x]. *)
Definition pin_prompt (x : string) : string :=
  "Enter PIN for '" +:+ x +:+ "': ".

(** The two prompts of [mux.c] about a shared connection to [x]. *)
Definition shared_connection_prompt (terminate : bool) (x : string)
  : string :=
  (if terminate then "Terminate" else "Allow")
  +:+ " shared connection to " +:+ x +:+ "? ".

(** The prompts of [sshconnect2.c] and [sshconnect1.c] for the passphrase
    of a key file [x]. *)
Definition key_passphrase_prompt (rsa : bool) (x : string) : string :=
  "Enter passphrase for" +:+ (if rsa then " RSA" else "")
  +:+ " key '" +:+ x +:+ "': ".

(** The password prompts of [sshconnect2.c] for a user at a host [x]. *)
Definition ssh_password_prompt (jpake : bool) (x : string) : string :=
  x +:+ "'s password" +:+ (if jpake then " (JPAKE)" else "") +:+ ": ".

(** The prompt of [mux.c] for a forward to [x]. *)
Definition forward_prompt (x : string) : string :=
  "Allow forward to " +:+ x +:+ "? ".

(** One double quote. *)
Definition dq : string := String DQUOTE "".

(** The two prompts of git-lfs for a URL [x]. *)
Definition lfs_prompt (password : bool) (x : string) : string :=
  (if password then "Password" else "Username") +:+ " for " +:+ dq
  +:+ x +:+ dq.

(** The prompt of [ssh-agent.c] for the use of a key [x] with fingerprint
    [f]. *)
Definition agent_prompt (x f : string) : string :=
  "Allow use of key " +:+ x +:+ "?" +:+ nl +:+ "Key fingerprint " +:+ f
  +:+ ".".

(** ** Sample data *)

Definition alice_vars : Vars := mkVars (Some "alice") false TypePassword.

Definition only_spaced : gmap string string := {[ "alice " := "old" ]}.

Definition both_legacy : gmap string string :=
  {[ "'alice'" := "s3cret"; "alice " := "older" ]}.

Definition only_quoted : gmap string string := {[ "'alice'" := "s3cret" ]}.

Definition both_forms : gmap string string :=
  {[ "alice " := "from-space"; "'alice'" := "from-quotes" ]}.

Definition canonical_and_quoted : gmap string string :=
  {[ "alice" := "current"; "'alice'" := "stale" ]}.

Definition hunter : Dialogs :=
  mkDialogs (fun _ => true) (fun _ _ => Some ("hunter2", false)).

Definition cancelling : Dialogs :=
  mkDialogs (fun _ => false) (fun _ _ => None).

Definition git_prompt : string := "git@example.com's password: ".

Definition git_wallet : gmap string (gmap string string) :=
  {[ "ksshaskpass" := {[ "git@example.com" := "s3cret" ]} ]}.

Definition accepting : Dialogs :=
  mkDialogs (fun _ => true) (fun _ _ => None).

Definition keeping : Dialogs :=
  mkDialogs (fun _ => true) (fun _ _ => Some ("hunter2", true)).

(** * Properties *)

(** ** Strings *)

Lemma length_app (a b : string) :
  String.length (a +:+ b) = String.length a + String.length b.
Proof. induction a as [|x a IH]; simpl; [reflexivity | now rewrite IH]. Qed.

Lemma quoted_length id : String.length (quoted id) = String.length id + 2.
Proof. unfold quoted. rewrite !length_app. simpl. lia. Qed.

Lemma spaced_length id : String.length (spaced id) = String.length id + 1.
Proof. unfold spaced. rewrite !length_app. simpl. lia. Qed.

Lemma quoted_spaced_length id :
  String.length (quoted_spaced id) = String.length id + 3.
Proof. unfold quoted_spaced. rewrite !length_app. simpl. lia. Qed.

Ltac by_length :=
  let E := fresh in
  intros E; apply (f_equal String.length) in E;
  rewrite ?quoted_length, ?spaced_length, ?quoted_spaced_length in E; lia.

Lemma quoted_ne id : quoted id <> id.
Proof. by_length. Qed.
Lemma spaced_ne id : spaced id <> id.
Proof. by_length. Qed.
Lemma quoted_spaced_ne id : quoted_spaced id <> id.
Proof. by_length. Qed.
Lemma quoted_ne_spaced id : quoted id <> spaced id.
Proof. by_length. Qed.
Lemma quoted_ne_quoted_spaced id : quoted id <> quoted_spaced id.
Proof. by_length. Qed.
Lemma spaced_ne_quoted_spaced id : spaced id <> quoted_spaced id.
Proof. by_length. Qed.

(** The three templates give the three legacy forms. *)
Lemma legacy_keys id :
  map (fun templ => arg templ id) legacy_templates
  = [quoted id; spaced id; quoted_spaced id].
Proof. reflexivity. Qed.

Lemma isEmpty_true s : isEmpty s = true <-> s = "".
Proof. destruct s; simpl; split; congruence. Qed.

Lemma isEmpty_false s : isEmpty s = false <-> s <> "".
Proof. destruct s; simpl; split; congruence. Qed.

(** ** The wallet operations, run on a world *)

Section Run.

Variable w : World.

Lemma run_hasFolder name :
  hasFolder name w
  = (bool_decide (is_Some (folders w !! name)),
     mkWorld (available w) (folders w) (current w)
       (calls w ++ [HasFolder name]) (log w) (stdout w)).
Proof. reflexivity. Qed.

Lemma run_setFolder name :
  setFolder name w
  = (tt, mkWorld (available w) (folders w) name
           (calls w ++ [SetFolder name]) (log w) (stdout w)).
Proof. reflexivity. Qed.

Lemma run_readPassword key :
  readPassword key w
  = (stored (entries (folders w) (current w)) key,
     mkWorld (available w) (folders w) (current w)
       (calls w ++ [ReadPassword key]) (log w) (stdout w)).
Proof. reflexivity. Qed.

Lemma run_renameEntry a b :
  renameEntry a b w
  = (tt, mkWorld (available w) (alter (rename a b) (current w) (folders w))
           (current w) (calls w ++ [RenameEntry a b]) (log w) (stdout w)).
Proof. reflexivity. Qed.

End Run.

Lemma entries_Some fs f es : fs !! f = Some es -> entries fs f = es.
Proof. intros H. unfold entries. now rewrite H. Qed.

Lemma entries_alter fs f es g :
  fs !! f = Some es -> entries (alter g f fs) f = g es.
Proof.
  intros H. unfold entries. rewrite lookup_alter_eq, H. reflexivity.
Qed.

Lemma reads_of_app cs1 cs2 : reads_of (cs1 ++ cs2) = reads_of cs1 ++ reads_of cs2.
Proof.
  induction cs1 as [|c cs1 IH]; [reflexivity|].
  destruct c; simpl; rewrite IH; reflexivity.
Qed.

Lemma renames_of_app cs1 cs2 :
  renames_of (cs1 ++ cs2) = renames_of cs1 ++ renames_of cs2.
Proof.
  induction cs1 as [|c cs1 IH]; [reflexivity|].
  destruct c; simpl; rewrite IH; reflexivity.
Qed.

Arguments stored : simpl never.
Arguments legacy_loop : simpl never.
Arguments entries : simpl never.

(** The lookup when all four conditions of line 285 hold. *)
Lemma lookup_guarded (f id : string) (v : Vars) (w : World)
    (es : gmap string string) :
  ignoreWallet v = false ->
  identifier v = Some id ->
  available w = true ->
  folders w !! f = Some es ->
  lookup f v w =
    if isEmpty (stored es id) then
      let (item, w') := legacy_loop legacy_templates id
                          (after_canonical_read f id w) in
      ((true, item), w')
    else ((true, stored es id), after_canonical_read f id w).
Proof.
  intros Hi Hid Hav Hf.
  destruct w as [av fs cur cs lg out]. simpl in Hav, Hf. subst av.
  unfold lookup. rewrite Hi, Hid. cbn.
  rewrite bool_decide_true by (rewrite Hf; eauto). cbn.
  rewrite (entries_Some _ _ _ Hf).
  unfold after_canonical_read. rewrite <- !app_assoc. cbn.
  destruct (isEmpty (stored es id)); reflexivity.
Qed.

(** ** The lookup when the canonical key holds a secret *)

(** C10.  When the wallet is used, the folder exists and the read of the
    identifier gives a non-empty secret, the lookup returns that secret;
    the only key it reads is the identifier, it renames nothing, and the
    content of the wallet is what it was. *)
Theorem canonical_hit_leaves_wallet (f id : string) (v : Vars) (w : World)
    (es : gmap string string) :
  ignoreWallet v = false ->
  identifier v = Some id ->
  available w = true ->
  folders w !! f = Some es ->
  stored es id <> "" ->
  exists cs,
    calls (lookup f v w).2 = calls w ++ cs /\
    (lookup f v w).1 = (true, stored es id) /\
    reads_of cs = [id] /\
    renames_of cs = [] /\
    folders (lookup f v w).2 = folders w.
Proof.
  intros Hi Hid Hav Hf Hne.
  exists [OpenWallet; HasFolder f; SetFolder f; ReadPassword id].
  rewrite (lookup_guarded f id v w es) by assumption.
  apply isEmpty_false in Hne. rewrite Hne. cbn. auto.
Qed.

Lemma canonical_hit_leaves_wallet_witness :
  (lookup "ksshaskpass" alice_vars
     (fresh true {[ "ksshaskpass" := canonical_and_quoted ]})).1
  = (true, "current").
Proof.
  destruct (canonical_hit_leaves_wallet "ksshaskpass" "alice" alice_vars
              (fresh true {[ "ksshaskpass" := canonical_and_quoted ]})
              canonical_and_quoted)
    as (cs & _ & H & _).
  - reflexivity.
  - reflexivity.
  - reflexivity.
  - reflexivity.
  - discriminate.
  - exact H.
Defined.

(** ** The legacy keys *)

(** One turn of the loop. *)
Lemma legacy_loop_cons (templ : string) (rest : list string) (id : string)
    (w : World) (es : gmap string string) :
  folders w !! current w = Some es ->
  legacy_loop (templ :: rest) id w =
    if isEmpty (stored es (arg templ id))
    then legacy_loop rest id (after_miss (arg templ id) w)
    else (stored es (arg templ id), after_hit (arg templ id) id w).
Proof.
  intros Hf. unfold legacy_loop at 1. fold legacy_loop.
  unfold bind at 1. rewrite run_readPassword.
  rewrite (entries_Some _ _ _ Hf).
  destruct (isEmpty (stored es (arg templ id))); simpl; [reflexivity|].
  unfold after_hit. cbn. rewrite <- !app_assoc. reflexivity.
Qed.

Lemma legacy_loop_nil (id : string) (w : World) :
  legacy_loop [] id w = ("", w).
Proof. reflexivity. Qed.

Lemma legacy_loop_run (id : string) (w : World) (es : gmap string string) :
  folders w !! current w = Some es ->
  legacy_loop legacy_templates id w = loop_result id es w.
Proof.
  intros Hf. unfold legacy_templates, loop_result.
  rewrite (legacy_loop_cons _ _ _ _ es Hf).
  change (arg "'%0'" id) with (quoted id).
  destruct (isEmpty (stored es (quoted id))); [|reflexivity].
  rewrite (legacy_loop_cons _ _ _ _ es) by exact Hf.
  change (arg "%0 " id) with (spaced id).
  destruct (isEmpty (stored es (spaced id))); [|reflexivity].
  rewrite (legacy_loop_cons _ _ _ _ es) by exact Hf.
  change (arg "'%0' " id) with (quoted_spaced id).
  destruct (isEmpty (stored es (quoted_spaced id))); reflexivity.
Qed.

(** The lookup when the four conditions hold and the identifier itself
    gives nothing. *)
Lemma lookup_legacy (f id : string) (v : Vars) (w : World)
    (es : gmap string string) :
  ignoreWallet v = false ->
  identifier v = Some id ->
  available w = true ->
  folders w !! f = Some es ->
  stored es id = "" ->
  lookup f v w =
    ((true, (loop_result id es (after_canonical_read f id w)).1),
     (loop_result id es (after_canonical_read f id w)).2).
Proof.
  intros Hi Hid Hav Hf He.
  rewrite (lookup_guarded f id v w es) by assumption.
  rewrite He. simpl isEmpty. cbv iota.
  rewrite (legacy_loop_run id _ es) by exact Hf.
  destruct (loop_result id es (after_canonical_read f id w)); reflexivity.
Qed.

(** C1.  When the four conditions of the lookup hold and the read of the
    identifier gives nothing, the keys read next are the quoted identifier,
    the identifier with a trailing space and the quoted identifier with a
    trailing space, in this order, up to and including the first that
    gives a non-empty secret; that secret is the result.  When none gives
    one, all three are read and the result is empty. *)
Theorem legacy_probe_order (f id : string) (v : Vars) (w : World)
    (es : gmap string string) :
  ignoreWallet v = false ->
  identifier v = Some id ->
  available w = true ->
  folders w !! f = Some es ->
  stored es id = "" ->
  let q := "'" +:+ id +:+ "'" in
  let s := id +:+ " " in
  let qs := "'" +:+ id +:+ "' " in
  let item := (lookup f v w).1.2 in
  exists cs probed,
    calls (lookup f v w).2 = calls w ++ cs /\
    reads_of cs = id :: probed /\
    (stored es q <> "" -> probed = [q] /\ item = stored es q) /\
    (stored es q = "" -> stored es s <> "" ->
       probed = [q; s] /\ item = stored es s) /\
    (stored es q = "" -> stored es s = "" -> stored es qs <> "" ->
       probed = [q; s; qs] /\ item = stored es qs) /\
    (stored es q = "" -> stored es s = "" -> stored es qs = "" ->
       probed = [q; s; qs] /\ item = "").
Proof.
  intros Hi Hid Hav Hf He q s qs item. subst item.
  rewrite (lookup_legacy f id v w es) by assumption.
  change q with (quoted id). change s with (spaced id).
  change qs with (quoted_spaced id). clear q s qs.
  unfold loop_result.
  destruct (stored es (quoted id)) eqn:Eq; simpl isEmpty; cbv iota beta;
    simpl negb; cbv iota.
  - destruct (stored es (spaced id)) eqn:Es; simpl isEmpty; cbv iota beta;
      simpl negb; cbv iota.
    + destruct (stored es (quoted_spaced id)) eqn:Eqs; simpl isEmpty;
        cbv iota beta; simpl negb; cbv iota.
      * exists [OpenWallet; HasFolder f; SetFolder f; ReadPassword id;
                ReadPassword (quoted id); ReadPassword (spaced id);
                ReadPassword (quoted_spaced id)],
               [quoted id; spaced id; quoted_spaced id].
        cbn. rewrite <- !app_assoc. cbn. repeat split; congruence.
      * exists [OpenWallet; HasFolder f; SetFolder f; ReadPassword id;
                ReadPassword (quoted id); ReadPassword (spaced id);
                ReadPassword (quoted_spaced id);
                RenameEntry (quoted_spaced id) id],
               [quoted id; spaced id; quoted_spaced id].
        cbn. rewrite <- !app_assoc. cbn. repeat split; congruence.
    + exists [OpenWallet; HasFolder f; SetFolder f; ReadPassword id;
              ReadPassword (quoted id); ReadPassword (spaced id);
              RenameEntry (spaced id) id],
             [quoted id; spaced id].
      cbn. rewrite <- !app_assoc. cbn. repeat split; congruence.
  - exists [OpenWallet; HasFolder f; SetFolder f; ReadPassword id;
            ReadPassword (quoted id); RenameEntry (quoted id) id],
           [quoted id].
    cbn. rewrite <- !app_assoc. cbn. repeat split; congruence.
Qed.

Lemma legacy_probe_order_witness :
  (lookup "ksshaskpass" alice_vars
     (fresh true {[ "ksshaskpass" := only_spaced ]})).1.2 = "old".
Proof.
  destruct (legacy_probe_order "ksshaskpass" "alice" alice_vars
              (fresh true {[ "ksshaskpass" := only_spaced ]}) only_spaced)
    as (cs & probed & _ & _ & _ & H & _).
  - reflexivity.
  - reflexivity.
  - reflexivity.
  - reflexivity.
  - reflexivity.
  - apply H; [reflexivity | discriminate].
Defined.

(** C7.  When the wallet is to be ignored, or there is no identifier, or
    no wallet could be opened, or the wallet has no folder of the given
    name, the lookup reads no key, gives the empty result and leaves the
    content of the wallet as it was. *)
Theorem lookup_refused (f : string) (v : Vars) (w : World) :
  ignoreWallet v = true \/ identifier v = None \/ available w = false \/
  folders w !! f = None ->
  exists cs,
    calls (lookup f v w).2 = calls w ++ cs /\
    reads_of cs = [] /\
    (lookup f v w).1.2 = "" /\
    folders (lookup f v w).2 = folders w.
Proof.
  intros H.
  destruct w as [av fs cur cs lg out], v as [id ig ty]. simpl in H.
  unfold lookup. simpl ignoreWallet. simpl identifier.
  destruct ig.
  { exists []. cbn. rewrite app_nil_r. destruct id; cbn; auto. }
  destruct id as [id|].
  2:{ exists [OpenWallet]. cbn. auto. }
  destruct av.
  2:{ exists [OpenWallet]. cbn. auto. }
  destruct H as [H|[H|[H|H]]]; try discriminate.
  exists [OpenWallet; HasFolder f]. cbn.
  rewrite bool_decide_false by (rewrite H; intros [? ?]; discriminate).
  cbn. rewrite <- !app_assoc. auto.
Qed.

Lemma lookup_refused_witness :
  (lookup "ksshaskpass" (mkVars (Some "alice") true TypePassword)
     (fresh true {[ "ksshaskpass" := only_spaced ]})).1.2 = "".
Proof.
  destruct (lookup_refused "ksshaskpass"
              (mkVars (Some "alice") true TypePassword)
              (fresh true {[ "ksshaskpass" := only_spaced ]}))
    as (cs & _ & _ & H & _).
  - left. reflexivity.
  - exact H.
Defined.

(** ** What a legacy hit does to the wallet *)

Lemma stored_nonempty (es : gmap string string) (key : string) :
  stored es key <> "" -> es !! key = Some (stored es key).
Proof.
  unfold stored. destruct (es !! key); simpl; [reflexivity | congruence].
Qed.

(** The renamed folder: the identifier owns the value, the old key is
    gone, every other key is as before. *)
Lemma rename_spec (key id : string) (es : gmap string string) :
  key <> id ->
  stored es key <> "" ->
  rename key id es !! id = Some (stored es key) /\
  rename key id es !! key = None /\
  (forall k, k <> id -> k <> key -> rename key id es !! k = es !! k).
Proof.
  intros Hne Hs. unfold rename. rewrite (stored_nonempty es key Hs).
  split; [apply lookup_insert_eq|].
  split.
  - rewrite lookup_insert_ne by congruence. apply lookup_delete_eq.
  - intros k Hk1 Hk2.
    rewrite lookup_insert_ne by congruence.
    apply lookup_delete_ne. congruence.
Qed.

Lemma first_hit_ne id es key : first_hit id es key -> key <> id.
Proof.
  intros [_ [->|[[-> _]|[-> _]]]];
    [apply quoted_ne | apply spaced_ne | apply quoted_spaced_ne].
Qed.

Lemma loop_result_hit (id : string) (es : gmap string string) (w : World)
    (key : string) :
  first_hit id es key ->
  (loop_result id es w).1 = stored es key /\
  folders (loop_result id es w).2
  = alter (rename key id) (current w) (folders w).
Proof.
  intros [Hs Hk]. unfold loop_result. apply isEmpty_false in Hs.
  destruct Hk as [->|[[-> Hq]|[-> [Hq Hsp]]]].
  - rewrite Hs. simpl. auto.
  - rewrite Hq, Hs. simpl. auto.
  - rewrite Hq, Hsp, Hs. simpl. auto.
Qed.

(** The lookup on a legacy hit: the result and the folder afterwards. *)
Lemma lookup_first_hit (f id : string) (v : Vars) (w : World)
    (es : gmap string string) (key : string) :
  ignoreWallet v = false ->
  identifier v = Some id ->
  available w = true ->
  folders w !! f = Some es ->
  stored es id = "" ->
  first_hit id es key ->
  (lookup f v w).1.2 = stored es key /\
  exists es',
    folders (lookup f v w).2 !! f = Some es' /\
    es' !! id = Some (stored es key) /\
    es' !! key = None /\
    (forall k, k <> id -> k <> key -> es' !! k = es !! k).
Proof.
  intros Hi Hid Hav Hf He Hh.
  rewrite (lookup_legacy f id v w es) by assumption.
  destruct (loop_result_hit id es (after_canonical_read f id w) key Hh)
    as (Hitem & Hfs).
  split; [exact Hitem|].
  exists (rename key id es). cbn [fst snd]. rewrite Hfs. cbn.
  rewrite lookup_alter_eq, Hf. split; [reflexivity|].
  apply rename_spec; [exact (first_hit_ne id es key Hh) | apply Hh].
Qed.

(** C8, as amended.  When the lookup finds a secret under a legacy key, it
    returns that secret; afterwards the folder maps the identifier to that
    secret, no longer has the legacy key it was found under, and holds
    every other key, the remaining legacy forms among them, as before. *)
Theorem legacy_hit_migrates (f id : string) (v : Vars) (w : World)
    (es : gmap string string) (key : string) :
  ignoreWallet v = false ->
  identifier v = Some id ->
  available w = true ->
  folders w !! f = Some es ->
  stored es id = "" ->
  first_hit id es key ->
  (lookup f v w).1.2 = stored es key /\
  exists es',
    folders (lookup f v w).2 !! f = Some es' /\
    es' !! id = Some (stored es key) /\
    es' !! key = None /\
    (forall k, k <> id -> k <> key -> es' !! k = es !! k).
Proof. exact (lookup_first_hit f id v w es key). Qed.

Lemma legacy_hit_migrates_witness :
  let r := lookup "ksshaskpass" alice_vars
             (fresh true {[ "ksshaskpass" := only_quoted ]}) in
  r.1.2 = "s3cret" /\
  exists es',
    folders r.2 !! "ksshaskpass" = Some es' /\
    es' !! "alice" = Some "s3cret" /\
    es' !! "'alice'" = None /\
    (forall k, k <> "alice" -> k <> "'alice'" -> es' !! k = only_quoted !! k).
Proof.
  apply (legacy_hit_migrates "ksshaskpass" "alice" alice_vars
           (fresh true {[ "ksshaskpass" := only_quoted ]}) only_quoted
           "'alice'").
  - reflexivity.
  - reflexivity.
  - reflexivity.
  - reflexivity.
  - reflexivity.
  - split; [discriminate | left; reflexivity].
Defined.

(** C8, the claim as stated fails: with secrets under both the quoted key
    and the key with a trailing space, the lookup finds the secret of the
    quoted key, and afterwards the folder holds the identifier with that
    secret together with the trailing-space key and its own, different
    secret. *)
Lemma canonical_and_legacy_both_live :
  let r := lookup "ksshaskpass" alice_vars
             (fresh true {[ "ksshaskpass" := both_legacy ]}) in
  let es' := entries (folders r.2) "ksshaskpass" in
  first_hit "alice" both_legacy (quoted "alice") /\
  r.1.2 = "s3cret" /\
  es' !! "alice" = Some "s3cret" /\
  es' !! spaced "alice" = Some "older" /\
  "s3cret" <> "older".
Proof.
  cbv zeta. split.
  - split; [discriminate | left; reflexivity].
  - split; [reflexivity|]. split; [reflexivity|].
    split; [reflexivity | discriminate].
Qed.

(** ** Which legacy form wins *)

(** C2, as amended.  When the identifier is absent from the folder and
    both the trailing-space key and the quoted key hold non-empty secrets,
    the lookup returns the secret of the quoted key: that key is read
    first and the trailing-space key is not read at all.  Afterwards the
    identifier holds that secret, the quoted key is gone and the
    trailing-space key still holds its own. *)
Theorem quoted_variant_wins (f id : string) (v : Vars) (w : World)
    (es : gmap string string) (v_spaced v_quoted : string) :
  ignoreWallet v = false ->
  identifier v = Some id ->
  available w = true ->
  folders w !! f = Some es ->
  es !! id = None ->
  es !! (id +:+ " ") = Some v_spaced ->
  es !! ("'" +:+ id +:+ "'") = Some v_quoted ->
  v_spaced <> "" ->
  v_quoted <> "" ->
  (lookup f v w).1.2 = v_quoted /\
  (exists cs, calls (lookup f v w).2 = calls w ++ cs /\
              reads_of cs = [id; "'" +:+ id +:+ "'"]) /\
  exists es',
    folders (lookup f v w).2 !! f = Some es' /\
    es' !! id = Some v_quoted /\
    es' !! ("'" +:+ id +:+ "'") = None /\
    es' !! (id +:+ " ") = Some v_spaced.
Proof.
  intros Hi Hid Hav Hf Hc Hs Hq Hsne Hqne.
  change (id +:+ " ") with (spaced id) in *.
  change ("'" +:+ id +:+ "'") with (quoted id) in *.
  assert (Hsq : stored es (quoted id) = v_quoted)
    by (unfold stored; now rewrite Hq).
  assert (He : stored es id = "") by (unfold stored; now rewrite Hc).
  assert (Hh : first_hit id es (quoted id)).
  { split; [congruence | left; reflexivity]. }
  destruct (lookup_first_hit f id v w es (quoted id) Hi Hid Hav Hf He Hh)
    as (Hitem & es' & Hfs & Hid' & Hq' & Hframe).
  split; [congruence|]. split.
  - rewrite (lookup_legacy f id v w es) by assumption.
    unfold loop_result. rewrite Hsq.
    apply isEmpty_false in Hqne. rewrite Hqne. simpl negb. cbv iota.
    exists [OpenWallet; HasFolder f; SetFolder f; ReadPassword id;
            ReadPassword (quoted id); RenameEntry (quoted id) id].
    cbn. rewrite <- !app_assoc. auto.
  - exists es'. split; [exact Hfs|]. split; [congruence|].
    split; [exact Hq'|].
    rewrite Hframe; [exact Hs | apply spaced_ne |].
    intros E. symmetry in E. revert E. apply quoted_ne_spaced.
Qed.

Lemma quoted_variant_wins_witness :
  (lookup "ksshaskpass" alice_vars
     (fresh true {[ "ksshaskpass" := both_forms ]})).1.2 = "from-quotes".
Proof.
  apply (quoted_variant_wins "ksshaskpass" "alice" alice_vars
           (fresh true {[ "ksshaskpass" := both_forms ]}) both_forms
           "from-space" "from-quotes").
  - reflexivity.
  - reflexivity.
  - reflexivity.
  - reflexivity.
  - reflexivity.
  - reflexivity.
  - reflexivity.
  - discriminate.
  - discriminate.
Defined.

(** C2, the claim as stated fails: with different secrets under
    the trailing-space key and under the quoted key and no entry for the
    identifier, the lookup does not return the secret of the trailing-space
    key. *)
Lemma trailing_space_variant_loses :
  let r := lookup "ksshaskpass" alice_vars
             (fresh true {[ "ksshaskpass" := both_forms ]}) in
  both_forms !! "alice" = None /\
  both_forms !! "alice " = Some "from-space" /\
  both_forms !! "'alice'" = Some "from-quotes" /\
  r.1.2 <> "from-space".
Proof.
  cbv zeta. repeat split; try reflexivity. discriminate.
Qed.

(** ** Prompts no pattern matches *)

Arguments match_ : simpl never.

Lemma parsePrompt_unrecognized (prompt : string) (v : Vars) :
  unrecognized prompt ->
  parsePrompt prompt v = (v, [qCWarning ["Unable to parse phrase"; prompt]]).
Proof.
  unfold unrecognized, patterns. intros H.
  repeat match type of H with
         | Forall _ (_ :: _) =>
             let E := fresh "E" in
             apply Forall_cons_1 in H; destruct H as [E H]
         end.
  unfold parsePrompt.
  repeat match goal with
         | E : match_ _ prompt = None |- _ => rewrite E; clear E
         end.
  reflexivity.
Qed.

(** The warnings of [parsePrompt] go to the log; nothing else changes. *)
Lemma run_warnings (A : Type) (x : A) (ds : list Diagnostic) (w : World) :
  foldr (fun d k => warn d ;; k) (ret x) ds w
  = (x, mkWorld (available w) (folders w) (current w) (calls w)
          (log w ++ ds) (stdout w)).
Proof.
  revert w. induction ds as [|d ds IH]; intros w.
  - simpl. unfold ret. rewrite app_nil_r. destruct w; reflexivity.
  - simpl. unfold bind at 1. simpl. rewrite IH. simpl.
    rewrite <- app_assoc. reflexivity.
Qed.

Lemma run_parse_arguments (prompt : string) (rest : list string) (w : World) :
  parse_arguments (prompt :: rest) w
  = ((prompt, (parsePrompt prompt initial_vars).1),
     mkWorld (available w) (folders w) (current w) (calls w)
       (log w ++ (parsePrompt prompt initial_vars).2) (stdout w)).
Proof.
  unfold parse_arguments.
  destruct (parsePrompt prompt initial_vars) as [v ds].
  apply run_warnings.
Qed.

(** ** The output of [main] *)

Lemma append_assoc (a b c : string) : (a +:+ b) +:+ c = a +:+ (b +:+ c).
Proof.
  induction a as [|x a IH]; [reflexivity|].
  change (String x ((a +:+ b) +:+ c) = String x (a +:+ (b +:+ c))).
  now rewrite IH.
Qed.

(** Every pattern of a confirmation tells [main] to ignore the wallet. *)
Lemma confirm_ignores_wallet (prompt : string) :
  type (parsePrompt prompt initial_vars).1 = TypeConfirm ->
  ignoreWallet (parsePrompt prompt initial_vars).1 = true.
Proof.
  unfold parsePrompt. cbv zeta.
  repeat match goal with
         | |- context [hasMatch (match_ ?re prompt)] =>
             destruct (hasMatch (match_ re prompt));
             [simpl; intros; first [reflexivity | discriminate]|]
         end.
  simpl. discriminate.
Qed.

(** The legacy loop and the lookup write nothing to standard output. *)
Lemma legacy_loop_stdout (templs : list string) (id : string) (w : World) :
  stdout (legacy_loop templs id w).2 = stdout w.
Proof.
  revert w. induction templs as [|t ts IH]; intros w; [reflexivity|].
  unfold legacy_loop; fold legacy_loop.
  unfold bind at 1. rewrite run_readPassword.
  destruct (isEmpty _); simpl; [|reflexivity].
  rewrite IH. reflexivity.
Qed.

Lemma lookup_stdout (f : string) (v : Vars) (w : World) :
  stdout (lookup f v w).2 = stdout w.
Proof.
  destruct v as [id ig ty], w as [av fs cur cs lg out].
  unfold lookup. simpl ignoreWallet. simpl identifier.
  destruct ig; [destruct id; reflexivity|].
  destruct id as [id|]; [|reflexivity].
  destruct av; [|reflexivity].
  cbn. destruct (bool_decide _); cbn; [|reflexivity].
  destruct (isEmpty _); cbn; [|reflexivity].
  unfold bind.
  match goal with
  | |- context [legacy_loop ?t ?i ?w0] =>
      pose proof (legacy_loop_stdout t i w0) as H;
      destruct (legacy_loop t i w0) as [item w1]
  end.
  exact H.
Qed.

Lemma main_lookup_stdout (args : list string) (w : World) :
  stdout (main_lookup args w).2 = stdout w.
Proof.
  unfold main_lookup, bind.
  destruct args as [|prompt rest].
  - simpl parse_arguments. unfold ret at 1.
    pose proof (lookup_stdout applicationName initial_vars w) as H.
    destruct (lookup applicationName initial_vars w) as [[wl it] w1].
    exact H.
  - rewrite run_parse_arguments.
    match goal with
    | |- context [lookup ?f ?v0 ?w0] =>
        pose proof (lookup_stdout f v0 w0) as H;
        destruct (lookup f v0 w0) as [[wl it] w1]
    end.
    exact H.
Qed.

(** The wallet calls of the write path print nothing either. *)
Lemma ask_stdout (ui : Dialogs) (f dialog : string) (v : Vars)
    (wallet : bool) (w : World) :
  stdout (ask ui f dialog v wallet w).2 = stdout w.
Proof.
  assert (Hw : forall (id item : string) (keep : bool),
    stdout ((if wallet && keep
             then do has <- hasFolder f ;
                  (if has then ret tt else createFolder f) ;;
                  setFolder f ;; writePassword id item
             else ret tt) w).2 = stdout w).
  { intros id item keep. destruct (wallet && keep); [|reflexivity].
    unfold bind at 1. rewrite run_hasFolder.
    destruct (bool_decide (is_Some (folders w !! f))) eqn:E.
    - reflexivity.
    - unfold bind, createFolder, called, get_folders, bind. simpl.
      destruct (folders w !! f); reflexivity. }
  unfold ask. destruct (type v).
  - destruct (exec ui dialog wallet) as [[item keep]|]; [|reflexivity].
    destruct (identifier v) as [id|]; [|reflexivity].
    unfold bind at 1. specialize (Hw id item keep).
    match goal with |- context [let (_, _) := ?m in _] => destruct m end.
    exact Hw.
  - destruct (exec ui dialog wallet) as [[item keep]|]; [|reflexivity].
    destruct (identifier v) as [id|]; [|reflexivity].
    unfold bind at 1. specialize (Hw id item keep).
    match goal with |- context [let (_, _) := ?m in _] => destruct m end.
    exact Hw.
  - destruct (negb _); reflexivity.
Qed.

Lemma ask_result (ui : Dialogs) (f dialog : string) (v : Vars)
    (wallet : bool) (w : World) :
  (ask ui f dialog v wallet w).1 = collected ui dialog v wallet.
Proof.
  unfold ask, collected. destruct (type v).
  - destruct (exec ui dialog wallet) as [[item keep]|]; [|reflexivity].
    simpl. unfold bind.
    match goal with |- context [let (_, _) := ?m in _] => destruct m end.
    reflexivity.
  - destruct (exec ui dialog wallet) as [[item keep]|]; [|reflexivity].
    simpl. unfold bind.
    match goal with |- context [let (_, _) := ?m in _] => destruct m end.
    reflexivity.
  - destruct (questionYesNo ui dialog); reflexivity.
Qed.

(** [main] after the lookup. *)
Lemma main_after_lookup (args : list string) (ui : Dialogs) (w : World)
    (dialog : string) (v : Vars) (wallet : bool) (item : string)
    (w1 : World) :
  main_lookup args w = ((dialog, v, wallet, item), w1) ->
  let r := main args ui w in
  (item <> "" -> r.1 = 0 /\ stdout r.2 = stdout w +:+ item) /\
  (item = "" ->
   forall secret, collected ui dialog v wallet = Some secret ->
     r.1 = 0 /\ stdout r.2 = stdout w +:+ secret +:+ nl) /\
  (item = "" -> collected ui dialog v wallet = None ->
     r.1 = 1 /\ stdout r.2 = stdout w).
Proof.
  intros Hl r. subst r.
  pose proof (main_lookup_stdout args w) as Hout. rewrite Hl in Hout.
  simpl in Hout.
  unfold main, bind. rewrite Hl.
  destruct item as [|c item].
  - change (negb (isEmpty "")) with false. cbv beta iota.
    pose proof (ask_stdout ui applicationName dialog v wallet w1) as Ha.
    pose proof (ask_result ui applicationName dialog v wallet w1) as Hr.
    destruct (ask ui applicationName dialog v wallet w1) as [answer w2].
    cbn [fst snd] in Ha, Hr. subst answer.
    split; [congruence|]. split.
    + intros _ secret Hc. rewrite Hc. simpl.
      rewrite Ha, Hout, append_assoc. auto.
    + intros _ Hc. rewrite Hc. simpl. rewrite Ha, Hout. auto.
  - simpl. rewrite Hout. repeat split; congruence.
Qed.

(** C6.  When the lookup gave a secret, [main] writes exactly that secret,
    with no line feed after it, and exits with 0.  When it gave none and
    the dialog hands back a secret, [main] writes that secret followed by
    one line feed and exits with 0.  When it gave none and the dialog is
    cancelled, [main] writes nothing and exits with 1. *)
Theorem output_by_path (args : list string) (ui : Dialogs) (w : World)
    (dialog : string) (v : Vars) (wallet : bool) (item : string)
    (w1 : World) :
  main_lookup args w = ((dialog, v, wallet, item), w1) ->
  let r := main args ui w in
  (item <> "" -> r.1 = 0 /\ stdout r.2 = stdout w +:+ item) /\
  (item = "" ->
   forall secret, collected ui dialog v wallet = Some secret ->
     r.1 = 0 /\ stdout r.2 = stdout w +:+ secret +:+ nl) /\
  (item = "" -> collected ui dialog v wallet = None ->
     r.1 = 1 /\ stdout r.2 = stdout w).
Proof. exact (main_after_lookup args ui w dialog v wallet item w1). Qed.

Lemma output_by_path_witness :
  ((main [git_prompt] hunter (fresh true git_wallet)).1 = 0 /\
   stdout (main [git_prompt] hunter (fresh true git_wallet)).2 = "s3cret") /\
  ((main [git_prompt] hunter (fresh true ∅)).1 = 0 /\
   stdout (main [git_prompt] hunter (fresh true ∅)).2 = "hunter2" +:+ nl) /\
  ((main [git_prompt] cancelling (fresh true ∅)).1 = 1 /\
   stdout (main [git_prompt] cancelling (fresh true ∅)).2 = "").
Proof.
  pose (v := mkVars (Some "git@example.com") false TypePassword).
  split; [|split].
  - assert (E : exists w1, main_lookup [git_prompt] (fresh true git_wallet)
                           = ((git_prompt, v, true, "s3cret"), w1))
      by (eexists; vm_compute; reflexivity).
    destruct E as [w1 E].
    destruct (output_by_path _ hunter _ _ _ _ _ _ E) as (H & _ & _).
    apply H. discriminate.
  - assert (E : exists w1, main_lookup [git_prompt] (fresh true ∅)
                           = ((git_prompt, v, true, ""), w1))
      by (eexists; vm_compute; reflexivity).
    destruct E as [w1 E].
    destruct (output_by_path _ hunter _ _ _ _ _ _ E) as (_ & H & _).
    apply (H eq_refl "hunter2"). reflexivity.
  - assert (E : exists w1, main_lookup [git_prompt] (fresh true ∅)
                           = ((git_prompt, v, true, ""), w1))
      by (eexists; vm_compute; reflexivity).
    destruct E as [w1 E].
    destruct (output_by_path _ cancelling _ _ _ _ _ _ E) as (_ & _ & H).
    apply (H eq_refl). reflexivity.
Defined.

(** ** Confirmations *)

Lemma lookup_ignored (f : string) (v : Vars) (w : World) :
  ignoreWallet v = true -> lookup f v w = ((false, ""), w).
Proof.
  intros H. unfold lookup. rewrite H. simpl.
  destruct (identifier v); reflexivity.
Qed.

(** C9.  For a prompt that [parsePrompt] takes for a confirmation, when
    the user accepts the box, [main] exits with 0 and what it has written
    to standard output is [yes] followed by two line feeds. *)
Theorem accepted_confirmation_output (prompt : string) (rest : list string)
    (ui : Dialogs) (w : World) :
  type (parsePrompt prompt initial_vars).1 = TypeConfirm ->
  questionYesNo ui prompt = true ->
  (main (prompt :: rest) ui w).1 = 0 /\
  stdout (main (prompt :: rest) ui w).2 = stdout w +:+ "yes" +:+ nl +:+ nl.
Proof.
  intros Ht Hy.
  pose proof (confirm_ignores_wallet prompt Ht) as Hi.
  assert (Hl : exists w1,
    main_lookup (prompt :: rest) w
    = ((prompt, (parsePrompt prompt initial_vars).1, false, ""), w1)).
  { unfold main_lookup, bind. rewrite run_parse_arguments.
    rewrite lookup_ignored by exact Hi. eexists. reflexivity. }
  destruct Hl as [w1 Hl].
  destruct (main_after_lookup _ ui _ _ _ _ _ _ Hl) as (_ & H & _).
  apply (H eq_refl ("yes" +:+ nl)).
  unfold collected. rewrite Ht, Hy. reflexivity.
Qed.

Lemma accepted_confirmation_output_witness :
  stdout (main ["Allow forward to example.org:22? "] accepting
            (fresh true ∅)).2
  = "yes" +:+ nl +:+ nl.
Proof.
  apply (accepted_confirmation_output "Allow forward to example.org:22? " []
           accepting (fresh true ∅)).
  - reflexivity.
  - reflexivity.
Defined.

(** ** The matcher *)

(** A pattern that begins with the start anchor matches at offset 0 or not
    at all. *)
Lemma search_anchored (r : regex) (s : string) (pos : nat) :
  pos <> 0 -> search (Seq Bol r) s pos = None.
Proof.
  revert pos. induction s as [|a s IH]; intros pos Hpos.
  - simpl. destruct pos; [congruence | reflexivity].
  - simpl. destruct pos; [congruence|]. simpl. apply IH. congruence.
Qed.

Lemma match_anchored (r : regex) (s : string) :
  match_ (Seq Bol r) s = rmatch r s 0 [] accept.
Proof.
  unfold match_. destruct s as [|a s]; simpl.
  - destruct (rmatch r "" 0 [] accept); reflexivity.
  - destruct (rmatch r (String a s) 0 [] accept); [reflexivity|].
    apply search_anchored. congruence.
Qed.

Lemma suffix_of_refl s : suffix_of s s.
Proof. exists "". reflexivity. Qed.

Lemma suffix_of_tail a s : suffix_of s (String a s).
Proof. exists (String a ""). reflexivity. Qed.

Lemma suffix_of_trans s1 s2 s3 :
  suffix_of s1 s2 -> suffix_of s2 s3 -> suffix_of s1 s3.
Proof.
  intros [p ->] [q ->]. exists (q +:+ p). now rewrite append_assoc.
Qed.

(** When a match succeeds, its continuation succeeded on a suffix of the
    subject. *)
Lemma many_greedy_suffix (s : string) (pos : nat) (c : caps) (k : cont)
    (res : caps) :
  many_greedy s pos c k = Some res ->
  exists s' pos' c', suffix_of s' s /\ k s' pos' c' = Some res.
Proof.
  revert pos. induction s as [|a s IH]; intros pos; simpl.
  - intros H. exists "", pos, c. split; [apply suffix_of_refl | exact H].
  - destruct (is_newline a).
    + intros H. exists (String a s), pos, c.
      split; [apply suffix_of_refl | exact H].
    + destruct (many_greedy s (S pos) c k) eqn:E.
      * intros [= <-]. destruct (IH _ E) as (s' & pos' & c' & Hs & Hk).
        exists s', pos', c'. split; [|exact Hk].
        eapply suffix_of_trans; [exact Hs | apply suffix_of_tail].
      * intros H. exists (String a s), pos, c.
        split; [apply suffix_of_refl | exact H].
Qed.

Lemma many_lazy_suffix (s : string) (pos : nat) (c : caps) (k : cont)
    (res : caps) :
  many_lazy s pos c k = Some res ->
  exists s' pos' c', suffix_of s' s /\ k s' pos' c' = Some res.
Proof.
  revert pos. induction s as [|a s IH]; intros pos; simpl.
  - destruct (k "" pos c) eqn:E; [|discriminate].
    intros [= <-]. exists "", pos, c. split; [apply suffix_of_refl | exact E].
  - destruct (k (String a s) pos c) eqn:E.
    + intros [= <-]. exists (String a s), pos, c.
      split; [apply suffix_of_refl | exact E].
    + destruct (is_newline a); [discriminate|].
      intros H. destruct (IH _ H) as (s' & pos' & c' & Hs & Hk).
      exists s', pos', c'. split; [|exact Hk].
      eapply suffix_of_trans; [exact Hs | apply suffix_of_tail].
Qed.

Lemma rmatch_suffix (r : regex) :
  forall (s : string) (pos : nat) (c : caps) (k : cont) (res : caps),
    rmatch r s pos c k = Some res ->
    exists s' pos' c', suffix_of s' s /\ k s' pos' c' = Some res.
Proof.
  induction r as [|a| | |r1 IH1 r2 IH2|r1 IH1 r2 IH2|r1 IH1|g|n r1 IH1];
    intros s pos c k res; simpl.
  - intros H. exists s, pos, c. split; [apply suffix_of_refl | exact H].
  - destruct s as [|b s]; [discriminate|].
    destruct (Ascii.eqb a b); [|discriminate].
    intros H. exists s, (S pos), c. split; [apply suffix_of_tail | exact H].
  - destruct (Nat.eqb pos 0); [|discriminate].
    intros H. exists s, pos, c. split; [apply suffix_of_refl | exact H].
  - destruct (at_end s); [|discriminate].
    intros H. exists s, pos, c. split; [apply suffix_of_refl | exact H].
  - intros H. destruct (IH1 _ _ _ _ _ H) as (s1 & p1 & c1 & Hs1 & H1).
    destruct (IH2 _ _ _ _ _ H1) as (s2 & p2 & c2 & Hs2 & H2).
    exists s2, p2, c2. split; [|exact H2].
    eapply suffix_of_trans; eassumption.
  - destruct (rmatch r1 s pos c k) eqn:E.
    + intros [= <-]. exact (IH1 _ _ _ _ _ E).
    + intros H. exact (IH2 _ _ _ _ _ H).
  - destruct (rmatch r1 s pos c k) eqn:E.
    + intros [= <-]. exact (IH1 _ _ _ _ _ E).
    + intros H. exists s, pos, c. split; [apply suffix_of_refl | exact H].
  - destruct g; [apply many_greedy_suffix | apply many_lazy_suffix].
  - intros H. destruct (IH1 _ _ _ _ _ H) as (s1 & p1 & c1 & Hs1 & H1).
    exists s1, p1, ((n, prefix (p1 - pos) s) :: c1). split; assumption.
Qed.

Lemma search_suffix (r : regex) (s : string) (pos : nat) (res : caps) :
  search r s pos = Some res ->
  exists s' pos', suffix_of s' s /\ rmatch r s' pos' [] accept = Some res.
Proof.
  revert pos. induction s as [|a s IH]; intros pos; simpl.
  - destruct (rmatch r "" pos [] accept) eqn:E; [|discriminate].
    intros [= <-]. exists "", pos. split; [apply suffix_of_refl | exact E].
  - destruct (rmatch r (String a s) pos [] accept) eqn:E.
    + intros [= <-]. exists (String a s), pos.
      split; [apply suffix_of_refl | exact E].
    + intros H. destruct (IH _ H) as (s' & pos' & Hs & Hr).
      exists s', pos'. split; [|exact Hr].
      eapply suffix_of_trans; [exact Hs | apply suffix_of_tail].
Qed.

(** A literal matches exactly its own text. *)
Lemma lit_inv (t : string) :
  forall (s : string) (pos : nat) (c : caps) (k : cont) (res : caps),
    rmatch (lit t) s pos c k = Some res ->
    exists s', s = t +:+ s' /\
               k s' (pos + String.length t) c = Some res.
Proof.
  induction t as [|a t IH]; intros s pos c k res; simpl.
  - intros H. exists s. rewrite Nat.add_0_r. auto.
  - destruct s as [|b s]; [discriminate|].
    destruct (Ascii.eqb_spec a b) as [<-|]; [|discriminate].
    intros H. destruct (IH _ _ _ _ _ H) as (s' & -> & Hk).
    exists s'. split; [reflexivity|].
    replace (pos + S (String.length t)) with (S pos + String.length t)
      by lia.
    exact Hk.
Qed.

Lemma at_end_inv (s : string) : at_end s = true -> s = "" \/ s = nl.
Proof.
  destruct s as [|a [|b s]]; simpl; auto; [|discriminate].
  unfold is_newline. destruct (Ascii.eqb_spec a LF) as [->|]; [|discriminate].
  auto.
Qed.

(** A pattern made of some pieces, then a literal, then the end anchor only
    matches a subject that ends with the literal, or with the literal and
    one line feed. *)
Lemma cat_suffix (rs tl : list regex) :
  forall (s : string) (pos : nat) (c : caps) (k : cont) (res : caps),
    rmatch (cat (rs ++ tl)) s pos c k = Some res ->
    exists s' pos' c',
      suffix_of s' s /\ rmatch (cat tl) s' pos' c' k = Some res.
Proof.
  induction rs as [|r rs IH]; intros s pos c k res H.
  - exists s, pos, c. split; [apply suffix_of_refl | exact H].
  - simpl in H. apply rmatch_suffix in H.
    destruct H as (s1 & p1 & c1 & Hs1 & H).
    destruct (IH _ _ _ _ _ H) as (s2 & p2 & c2 & Hs2 & H2).
    exists s2, p2, c2. split; [|exact H2].
    eapply suffix_of_trans; eassumption.
Qed.

Lemma append_empty_r (t : string) : t +:+ "" = t.
Proof.
  induction t as [|a t IH]; [reflexivity|].
  change (String a (t +:+ "") = String a t). now rewrite IH.
Qed.

Lemma tail_inv (t s : string) (pos : nat) (c : caps) (res : caps) :
  rmatch (cat [lit t; Eol]) s pos c accept = Some res ->
  s = t \/ s = t +:+ nl.
Proof.
  simpl. intros H. apply lit_inv in H. destruct H as (s' & -> & H).
  destruct (at_end s') eqn:E; [|discriminate].
  destruct (at_end_inv s' E) as [->| ->]; [left | right; reflexivity].
  apply append_empty_r.
Qed.

Lemma needs_tail (rs : list regex) (t s : string) (pos : nat) (res : caps) :
  search (cat (rs ++ [lit t; Eol])) s pos = Some res ->
  exists p, s = p +:+ t \/ s = p +:+ t +:+ nl.
Proof.
  intros H. apply search_suffix in H. destruct H as (s1 & p1 & Hs1 & H).
  apply cat_suffix in H. destruct H as (s2 & p2 & c2 & Hs2 & H).
  apply tail_inv in H.
  destruct (suffix_of_trans _ _ _ Hs2 Hs1) as [p Hp].
  exists p. destruct H as [->| ->]; auto.
Qed.

(** Two strings with different endings of the same length differ. *)
Lemma append_same_length (p1 : string) :
  forall p2 t1 t2, String.length p1 = String.length p2 ->
    p1 +:+ t1 = p2 +:+ t2 -> t1 = t2.
Proof.
  induction p1 as [|a p1 IH]; intros [|b p2] t1 t2 Hl H;
    try discriminate; simpl in *.
  - exact H.
  - injection H as _ H. injection Hl as Hl. exact (IH _ _ _ Hl H).
Qed.

Lemma tail_differs (p1 p2 t1 t2 : string) :
  String.length t1 = String.length t2 -> t1 <> t2 ->
  p1 +:+ t1 <> p2 +:+ t2.
Proof.
  intros Hl Hne E. apply Hne.
  apply (append_same_length p1 p2); [|exact E].
  apply (f_equal String.length) in E. rewrite !length_app in E. lia.
Qed.

(** A subject that ends with a question mark and a space does not end
    with a colon and a space, with or without a line feed after it. *)
Lemma question_tail_no_colon (a p t0 : string) :
  a +:+ "? " <> p +:+ (t0 +:+ ": ") /\
  a +:+ "? " <> p +:+ (t0 +:+ ": ") +:+ nl.
Proof.
  split.
  - rewrite <- (append_assoc p t0 ": ").
    apply tail_differs; [reflexivity | discriminate].
  - change (a +:+ "? ") with (a +:+ ("?" +:+ " ")).
    rewrite <- (append_assoc a "?" " ").
    rewrite <- (append_assoc p (t0 +:+ ": ") nl).
    apply tail_differs; [reflexivity | discriminate].
Qed.

(** ** The pattern of line 130 *)

Lemma lit_run (t s : string) (pos : nat) (c : caps) (k : cont) :
  rmatch (lit t) (t +:+ s) pos c k = k s (pos + String.length t) c.
Proof.
  revert pos. induction t as [|a t IH]; intros pos; simpl.
  - now rewrite Nat.add_0_r.
  - rewrite Ascii.eqb_refl, IH. f_equal. lia.
Qed.

Lemma prefix_app (y t : string) : prefix (String.length y) (y +:+ t) = y.
Proof.
  induction y as [|a y IH]; simpl; [destruct t; reflexivity|].
  now rewrite IH.
Qed.

Lemma no_newline_app (a b : string) :
  no_newline (a +:+ b) = no_newline a && no_newline b.
Proof.
  induction a as [|x a IH]; simpl; [reflexivity|].
  rewrite IH. now rewrite andb_assoc.
Qed.

(** A greedy run over a subject with no line feed takes everything; when
    the continuation refuses the end of the subject and accepts the last
    character, the run gives back exactly that character. *)
Lemma many_greedy_last (y : string) (a : ascii) (c : caps) (k : cont)
    (res : caps) :
  forall pos,
    no_newline y = true ->
    is_newline a = false ->
    k "" (pos + String.length y + 1) c = None ->
    k (String a "") (pos + String.length y) c = Some res ->
    many_greedy (y +:+ String a "") pos c k = Some res.
Proof.
  induction y as [|b y IH]; intros pos Hy Ha Hend Hlast; simpl in *.
  - rewrite Ha. rewrite Nat.add_0_r in *.
    replace (pos + 1) with (S pos) in Hend by lia.
    rewrite Hend. exact Hlast.
  - apply andb_prop in Hy. destruct Hy as [Hb Hy].
    apply negb_true_iff in Hb. rewrite Hb.
    rewrite (IH (S pos)); auto.
    + replace (S pos + String.length y + 1)
        with (pos + S (String.length y) + 1) by lia. exact Hend.
    + replace (S pos + String.length y)
        with (pos + S (String.length y)) by lia. exact Hlast.
Qed.

Lemma disable_mux_match (x : string) :
  no_newline x = true ->
  match_ re_disable_mux (disable_mux_prompt x) = Some [(1, x +:+ "?")].
Proof.
  intros Hx. unfold re_disable_mux, disable_mux_prompt.
  cbn [cat]. rewrite match_anchored. cbn [rmatch].
  rewrite lit_run.
  change (x +:+ "? ") with (x +:+ ("?" +:+ " ")).
  rewrite <- (append_assoc x "?" " ").
  set (n := 0 + String.length
                 "Disable further multiplexing on shared connection to ").
  erewrite (many_greedy_last (x +:+ "?") " "); [| | reflexivity | reflexivity |].
  - reflexivity.
  - rewrite no_newline_app, Hx. reflexivity.
  - cbn [lit rmatch]. simpl at_end. cbv iota. unfold accept.
    replace (n + String.length (x +:+ "?") - n)
      with (String.length (x +:+ "?")) by lia.
    rewrite prefix_app. reflexivity.
Qed.

(** The nine patterns tried before the one of line 130 all refuse the
    prompt: two of them because it does not end with a colon and a space,
    the others because of its first character. *)
Lemma disable_mux_prompt_tail (x : string) :
  disable_mux_prompt x
  = ("Disable further multiplexing on shared connection to " +:+ x) +:+ "? ".
Proof. unfold disable_mux_prompt. now rewrite append_assoc. Qed.

Lemma ssh_password_refuses_question (a : string) :
  match_ re_ssh_password (a +:+ "? ") = None.
Proof.
  destruct (match_ re_ssh_password (a +:+ "? ")) as [res|] eqn:E;
    [|reflexivity].
  unfold match_ in E.
  change re_ssh_password
    with (cat ([Bol; Group 1 user_at_host; lit "'s password";
                Opt (Group 2 (lit " (JPAKE)"))] ++ [lit ": "; Eol])) in E.
  apply needs_tail in E. destruct E as [p E].
  destruct (question_tail_no_colon a p "") as [H1 H2].
  destruct E as [E|E]; [elim (H1 E) | elim (H2 E)].
Qed.

Lemma pin_refuses_question (a : string) :
  match_ re_pin (a +:+ "? ") = None.
Proof.
  destruct (match_ re_pin (a +:+ "? ")) as [res|] eqn:E; [|reflexivity].
  unfold match_ in E.
  change re_pin
    with (cat ([lit "Enter PIN for '"; Group 1 (Many true)]
               ++ [lit "': "; Eol])) in E.
  apply needs_tail in E. destruct E as [p E].
  destruct (question_tail_no_colon a p "'") as [H1 H2].
  destruct E as [E|E]; [elim (H1 E) | elim (H2 E)].
Qed.

Ltac refuse_first_char re :=
  unfold re, disable_mux_prompt; cbn [cat]; rewrite match_anchored;
  reflexivity.

Lemma disable_mux_not_earlier (x : string) :
  Forall (fun re => match_ re (disable_mux_prompt x) = None)
    [re_ssh_password; re_password_change; re_key_passphrase;
     re_add_passphrase; re_bad_passphrase; re_pin; re_shared_connection;
     re_open; re_forward].
Proof.
  repeat match goal with
         | |- Forall _ (_ :: _) => constructor
         | |- Forall _ [] => constructor
         end.
  - rewrite disable_mux_prompt_tail. apply ssh_password_refuses_question.
  - refuse_first_char re_password_change.
  - refuse_first_char re_key_passphrase.
  - refuse_first_char re_add_passphrase.
  - refuse_first_char re_bad_passphrase.
  - rewrite disable_mux_prompt_tail. apply pin_refuses_question.
  - refuse_first_char re_shared_connection.
  - refuse_first_char re_open.
  - refuse_first_char re_forward.
Qed.

(** C5, what the code does: for a host [x] without a line feed, the
    prompt of [mux.c] is taken for a confirmation that ignores the wallet,
    and the identifier is [x] followed by the question mark. *)
Theorem disable_mux_identifier (x : string) (v : Vars) :
  no_newline x = true ->
  parsePrompt (disable_mux_prompt x) v
  = (mkVars (Some (x +:+ "?")) true TypeConfirm, []).
Proof.
  intros Hx.
  pose proof (disable_mux_not_earlier x) as H.
  repeat match type of H with
         | Forall _ (_ :: _) =>
             let E := fresh "E" in
             apply Forall_cons_1 in H; destruct H as [E H]
         end.
  unfold parsePrompt.
  repeat match goal with
         | E : match_ _ _ = None |- _ => rewrite E; clear E
         end.
  rewrite (disable_mux_match x Hx). reflexivity.
Qed.

Lemma disable_mux_identifier_witness :
  identifier (parsePrompt (disable_mux_prompt "host") initial_vars).1
  = Some "host?".
Proof.
  rewrite (disable_mux_identifier "host" initial_vars); reflexivity.
Defined.

(** ** The pattern of line 94 *)

Lemma search_skips_prefix (r : regex) (s : string) :
  (forall pos, hasMatch (rmatch r s pos [] accept) = true) ->
  forall pre pos, hasMatch (search r (pre +:+ s) pos) = true.
Proof.
  intros H pre. induction pre as [|a pre IH]; intros pos.
  - change ("" +:+ s) with s. specialize (H pos).
    destruct s as [|b s]; simpl;
      destruct (rmatch r _ pos [] accept); first [exact H | discriminate].
  - change (String a pre +:+ s) with (String a (pre +:+ s)). simpl.
    destruct (rmatch r _ pos [] accept); [reflexivity | apply IH].
Qed.

(** A search with a pattern that begins with the start anchor is one
    attempt at offset 0. *)
Lemma anchored_at_start (r : regex) (s : string) :
  match_ (Seq Bol r) s = rmatch (Seq Bol r) s 0 [] accept.
Proof. rewrite match_anchored. reflexivity. Qed.

(** C4, what the code does: the pattern of line 94 has no start anchor,
    so a prompt with text before the PIN request is still taken for a PIN
    request and its token becomes the identifier; this holds whatever the
    leading text is.  The nineteen other patterns begin with the start
    anchor and are only tried at offset 0; the pattern of line 198, for
    one, refuses a prompt of the same shape. *)
Theorem pin_pattern_accepts_leading_text :
  parsePrompt "xx Enter PIN for 'tok': " initial_vars
  = (mkVars (Some "tok") false TypePassword, []) /\
  (forall pre,
     hasMatch (match_ re_pin (pre +:+ "Enter PIN for 'tok': ")) = true) /\
  Forall (fun re => re = re_pin \/
                    forall s, match_ re s = rmatch re s 0 [] accept)
    patterns /\
  match_ re_password_for "xx Password for 'tok': " = None.
Proof.
  split; [reflexivity|]. split; [|split; [|reflexivity]].
  - intros pre. unfold match_. apply search_skips_prefix.
    intros pos. reflexivity.
  - unfold patterns.
    repeat match goal with
           | |- Forall _ (_ :: _) => constructor
           | |- Forall _ [] => constructor
           end;
      first [left; reflexivity | right; intros s; apply anchored_at_start].
Qed.

(** The end anchor follows PCRE: it also holds before a final line
    feed. *)
Example dollar_before_final_line_feed :
  (parsePrompt ("Username: " +:+ nl) initial_vars).1
  = mkVars None true TypeClearText.
Proof. reflexivity. Qed.

(** ** The text of the patterns *)

Example text_of_patterns :
  map show patterns =
  ["^(.*@.*)'s password( \(JPAKE\))?: $";
   "^(Enter|Retype) (.*@.*)'s (old|new) password: $";
   "^Enter passphrase for( RSA)? key '(.*)': $";
   "^Enter passphrase for (.*?)( \(will confirm each use\))?: $";
   "^Bad passphrase, try again for (.*?)( \(will confirm each use\))?: $";
   "Enter PIN for '(.*)': $";
   "^(Allow|Terminate) shared connection to (.*)\? $";
   "^Open (.* on .*)?$";
   "^Allow forward to (.*:.*)\? $";
   "^Disable further multiplexing on shared connection to (.*)? $";
   "^Allow use of key (.*)?\nKey fingerprint .*\.$";
   "^Add key (.*) \(.*\) to agent\?$";
   "^Password \((.*@.*)\): $";
   "^Username: $";
   "^Password: $";
   "^Username for '(.*)': $";
   "^Password for '(.*)': $";
   "^Username for " +:+ String DQUOTE "(.*?)" +:+ String DQUOTE "$";
   "^Password for " +:+ String DQUOTE "(.*?)" +:+ String DQUOTE "$";
   "^(.*?)'s password: $"].
Proof. reflexivity. Qed.

(** ** The prompts of the upstream tools *)

Example classify_ssh_password :
  parsePrompt "git@example.com's password: " initial_vars
  = (mkVars (Some "git@example.com") false TypePassword, []).
Proof. reflexivity. Qed.

Example classify_new_password :
  parsePrompt "Enter git@example.com's new password: " initial_vars
  = (mkVars (Some "git@example.com") true TypePassword, []).
Proof. reflexivity. Qed.

Example classify_key_passphrase :
  parsePrompt "Enter passphrase for key '/home/u/.ssh/id_rsa': " initial_vars
  = (mkVars (Some "/home/u/.ssh/id_rsa") false TypePassword, []).
Proof. reflexivity. Qed.

Example classify_bad_passphrase :
  parsePrompt "Bad passphrase, try again for /home/u/.ssh/id_rsa: "
    initial_vars
  = (mkVars (Some "/home/u/.ssh/id_rsa") true TypePassword, []).
Proof. reflexivity. Qed.

Example classify_shared_connection :
  parsePrompt "Allow shared connection to example.org? " initial_vars
  = (mkVars (Some "example.org") true TypeConfirm, []).
Proof. reflexivity. Qed.

Example classify_username :
  parsePrompt "Username: " initial_vars
  = (mkVars None true TypeClearText, []).
Proof. reflexivity. Qed.

Example classify_password :
  parsePrompt "Password: " initial_vars
  = (mkVars None true TypePassword, []).
Proof. reflexivity. Qed.

(** The end-to-end case of the specification: the wallet is empty, the
    user types a password and leaves the Keep box alone. *)
Example end_to_end_fresh_password :
  main ["git@example.com's password: "] hunter (fresh true ∅)
  = (0, mkWorld true ∅ "" [OpenWallet; HasFolder "ksshaskpass"] []
          ("hunter2" +:+ nl)).
Proof. reflexivity. Qed.

(** * Further properties of [main] *)

(** ** What the lookup leaves alone *)

Lemma legacy_loop_step (t : string) (ts : list string) (id : string)
    (w : World) :
  legacy_loop (t :: ts) id w =
    if isEmpty (stored (entries (folders w) (current w)) (arg t id))
    then legacy_loop ts id (after_miss (arg t id) w)
    else (stored (entries (folders w) (current w)) (arg t id),
          after_hit (arg t id) id w).
Proof.
  unfold legacy_loop at 1. fold legacy_loop.
  unfold bind at 1. rewrite run_readPassword.
  destruct (isEmpty _); simpl; [reflexivity|].
  unfold after_hit. cbn. rewrite <- !app_assoc. reflexivity.
Qed.

Lemma legacy_loop_available (templs : list string) (id : string) (w : World) :
  available (legacy_loop templs id w).2 = available w.
Proof.
  revert w. induction templs as [|t ts IH]; intros w; [reflexivity|].
  rewrite legacy_loop_step.
  destruct (isEmpty _); [|reflexivity].
  rewrite IH. reflexivity.
Qed.

(** A run of the loop that ends with an empty [item] has renamed
    nothing. *)
Lemma legacy_loop_empty (templs : list string) (id : string) (w : World) :
  (legacy_loop templs id w).1 = "" ->
  folders (legacy_loop templs id w).2 = folders w /\
  log (legacy_loop templs id w).2 = log w.
Proof.
  revert w. induction templs as [|t ts IH]; intros w; [auto|].
  rewrite legacy_loop_step.
  destruct (isEmpty _) eqn:E.
  - intros H. destruct (IH _ H) as [H1 H2]. rewrite H1, H2. auto.
  - intros H. apply isEmpty_false in E. contradiction.
Qed.

Lemma lookup_empty_keeps_wallet (f : string) (v : Vars) (w : World) :
  (lookup f v w).1.2 = "" ->
  folders (lookup f v w).2 = folders w /\ log (lookup f v w).2 = log w.
Proof.
  destruct v as [id ig ty], w as [av fs cur cs lg out].
  unfold lookup. simpl ignoreWallet. simpl identifier.
  destruct ig; [destruct id; auto|].
  destruct id as [id|]; [|auto].
  destruct av; [|auto].
  cbn. destruct (bool_decide _); cbn; [|auto].
  destruct (isEmpty _) eqn:E; cbn.
  - unfold bind.
    match goal with
    | |- context [legacy_loop ?t ?i ?w0] =>
        pose proof (legacy_loop_empty t i w0) as H;
        destruct (legacy_loop t i w0) as [item w1]
    end.
    exact H.
  - intros H. apply isEmpty_false in E. contradiction.
Qed.

Lemma lookup_available (f : string) (v : Vars) (w : World) :
  available (lookup f v w).2 = available w.
Proof.
  destruct v as [id ig ty], w as [av fs cur cs lg out].
  unfold lookup. simpl ignoreWallet. simpl identifier.
  destruct ig; [destruct id; reflexivity|].
  destruct id as [id|]; [|reflexivity].
  destruct av; [|reflexivity].
  cbn. destruct (bool_decide _); cbn; [|reflexivity].
  destruct (isEmpty _); cbn; [|reflexivity].
  unfold bind.
  match goal with
  | |- context [legacy_loop ?t ?i ?w0] =>
      pose proof (legacy_loop_available t i w0) as H;
      destruct (legacy_loop t i w0) as [item w1]
  end.
  exact H.
Qed.

(** X4.  A lookup that returns no secret has changed nothing in the
    wallet and has logged nothing: the only change the lookup ever makes
    is the rename that goes with a legacy hit. *)
Theorem lookup_without_secret_changes_nothing (f : string) (v : Vars)
    (w : World) :
  (lookup f v w).1.2 = "" ->
  folders (lookup f v w).2 = folders w /\ log (lookup f v w).2 = log w.
Proof. exact (lookup_empty_keeps_wallet f v w). Qed.

Lemma lookup_without_secret_changes_nothing_witness :
  folders (lookup "ksshaskpass" alice_vars
             (fresh true {[ "ksshaskpass" := ∅ ]})).2
  = {[ "ksshaskpass" := ∅ ]}.
Proof.
  destruct (lookup_without_secret_changes_nothing "ksshaskpass" alice_vars
              (fresh true {[ "ksshaskpass" := ∅ ]})) as [H _].
  - reflexivity.
  - exact H.
Defined.

(** ** [main] in two steps *)

Lemma run_main_lookup (args : list string) (w : World) :
  main_lookup args w
  = ((dialog_text args, parsed args,
      (lookup applicationName (parsed args)
         (logged (parse_warnings args) w)).1.1,
      (lookup applicationName (parsed args)
         (logged (parse_warnings args) w)).1.2),
     (lookup applicationName (parsed args)
        (logged (parse_warnings args) w)).2).
Proof.
  unfold main_lookup, bind. destruct args as [|prompt rest].
  - simpl parse_arguments. unfold ret at 1. cbn [parsed parse_warnings].
    replace (logged [] w) with w
      by (unfold logged; rewrite app_nil_r; destruct w; reflexivity).
    destruct (lookup applicationName initial_vars w) as [[wl it] w1].
    reflexivity.
  - rewrite run_parse_arguments. cbn [parsed parse_warnings dialog_text].
    fold (logged (parsePrompt prompt initial_vars).2 w).
    destruct (lookup applicationName _ _) as [[wl it] w1].
    reflexivity.
Qed.

(** The part of the world that is not standard output, after [main]. *)
Lemma main_rest_of_world (args : list string) (ui : Dialogs) (w : World)
    (dialog : string) (v : Vars) (wallet : bool) (item : string)
    (w1 : World) :
  main_lookup args w = ((dialog, v, wallet, item), w1) ->
  let w2 := if isEmpty item
            then (ask ui applicationName dialog v wallet w1).2 else w1 in
  folders (main args ui w).2 = folders w2 /\
  calls (main args ui w).2 = calls w2 /\
  available (main args ui w).2 = available w2 /\
  log (main args ui w).2 = log w2.
Proof.
  intros Hl. unfold main, bind. rewrite Hl.
  destruct item as [|c item].
  - change (negb (isEmpty "")) with false. cbv beta iota.
    change (isEmpty "") with true. cbv iota.
    destruct (ask ui applicationName dialog v wallet w1) as [[answer|] w2];
      cbn; auto.
  - cbn. auto.
Qed.

(** The dialog step writes to the wallet only when there is a wallet, an
    identifier, a password dialog and a ticked Keep box. *)
Lemma ask_no_write (ui : Dialogs) (f dialog : string) (v : Vars)
    (wallet : bool) (w : World) :
  wallet = false \/ identifier v = None \/ never_keeps ui \/
  type v = TypeConfirm ->
  (ask ui f dialog v wallet w).2 = w.
Proof.
  intros H. unfold ask.
  destruct (type v) eqn:Et.
  - destruct (exec ui dialog wallet) as [[item keep]|] eqn:Ee; [|reflexivity].
    destruct (identifier v) as [id|]; [|reflexivity].
    destruct wallet; [|reflexivity].
    destruct keep; [|reflexivity].
    destruct H as [H|[H|[H|H]]]; try discriminate.
    elim (H _ _ _ Ee).
  - destruct (exec ui dialog wallet) as [[item keep]|] eqn:Ee; [|reflexivity].
    destruct (identifier v) as [id|]; [|reflexivity].
    destruct wallet; [|reflexivity].
    destruct keep; [|reflexivity].
    destruct H as [H|[H|[H|H]]]; try discriminate.
    elim (H _ _ _ Ee).
  - destruct (negb _); reflexivity.
Qed.

Lemma main_ignores_wallet (prompt : string) (rest : list string)
    (ui : Dialogs) (w : World) :
  ignoreWallet (parsePrompt prompt initial_vars).1 = true ->
  calls (main (prompt :: rest) ui w).2 = calls w /\
  folders (main (prompt :: rest) ui w).2 = folders w.
Proof.
  intros Hi.
  pose proof (run_main_lookup (prompt :: rest) w) as Hl.
  cbn [parsed parse_warnings dialog_text] in Hl.
  rewrite lookup_ignored in Hl by exact Hi. cbn [fst snd] in Hl.
  destruct (main_rest_of_world _ ui _ _ _ _ _ _ Hl) as (Hf & Hc & _).
  rewrite Hf, Hc. change (isEmpty "") with true. cbv iota.
  rewrite ask_no_write by auto. auto.
Qed.

(** X3.  For a prompt that [parsePrompt] marks with [ignoreWallet], [main]
    makes no call on the wallet at all and leaves its content alone,
    whatever the user answers: such a prompt is neither looked up nor
    stored, even with the Keep box ticked. *)
Theorem ignored_prompt_never_touches_wallet (prompt : string)
    (rest : list string) (ui : Dialogs) (w : World) :
  ignoreWallet (parsePrompt prompt initial_vars).1 = true ->
  calls (main (prompt :: rest) ui w).2 = calls w /\
  folders (main (prompt :: rest) ui w).2 = folders w.
Proof. exact (main_ignores_wallet prompt rest ui w). Qed.

Lemma ignored_prompt_never_touches_wallet_witness :
  calls (main ["Enter git@example.com's new password: "] keeping
           (fresh true git_wallet)).2 = [].
Proof.
  apply (ignored_prompt_never_touches_wallet
           "Enter git@example.com's new password: " [] keeping
           (fresh true git_wallet)).
  reflexivity.
Defined.

(** X6.  When the lookup finds no secret and the user never ticks the Keep
    box, [main] leaves the content of the wallet as it was, whether the
    dialog is accepted or cancelled. *)
Theorem nothing_found_nothing_kept (args : list string) (ui : Dialogs)
    (w : World) :
  (main_lookup args w).1.2 = "" ->
  never_keeps ui ->
  folders (main args ui w).2 = folders w.
Proof.
  intros Hitem Hk.
  pose proof (run_main_lookup args w) as Hl.
  rewrite Hl in Hitem. cbn [fst snd] in Hitem.
  destruct (main_rest_of_world _ ui _ _ _ _ _ _ Hl) as (Hf & _).
  rewrite Hf, Hitem. change (isEmpty "") with true. cbv iota.
  rewrite ask_no_write by auto.
  destruct (lookup_empty_keeps_wallet _ _ _ Hitem) as [H _].
  rewrite H. reflexivity.
Qed.

Lemma nothing_found_nothing_kept_witness :
  folders (main [git_prompt] hunter (fresh true ∅)).2 = ∅.
Proof.
  apply (nothing_found_nothing_kept [git_prompt] hunter (fresh true ∅)).
  - reflexivity.
  - intros text shown pw. discriminate.
Defined.

(** ** Prompts without an identifier *)

Lemma lookup_no_identifier (f : string) (v : Vars) (w : World) :
  identifier v = None ->
  (lookup f v w).1.2 = "" /\
  folders (lookup f v w).2 = folders w /\
  calls (lookup f v w).2
  = calls w ++ (if ignoreWallet v then [] else [OpenWallet]).
Proof.
  intros H. unfold lookup. rewrite H.
  destruct (ignoreWallet v); cbn; rewrite ?app_nil_r; auto.
Qed.

(** X7.  When there is no identifier (no argument at all, an unrecognized
    prompt, or one of the two bare git prompts), [main] never reads,
    writes or renames a key: at most it opens the wallet, and the content
    of the wallet stays as it was even when the user ticks the Keep
    box. *)
Theorem no_identifier_no_wallet_entry (args : list string) (ui : Dialogs)
    (w : World) :
  identifier (parsed args) = None ->
  folders (main args ui w).2 = folders w /\
  calls (main args ui w).2
  = calls w ++ (if ignoreWallet (parsed args) then [] else [OpenWallet]).
Proof.
  intros Hid.
  pose proof (run_main_lookup args w) as Hl.
  destruct (lookup_no_identifier applicationName (parsed args)
              (logged (parse_warnings args) w) Hid) as (Hitem & Hf & Hc).
  destruct (main_rest_of_world _ ui _ _ _ _ _ _ Hl) as (Hf' & Hc' & _).
  rewrite Hf', Hc', Hitem. change (isEmpty "") with true. cbv iota.
  rewrite ask_no_write by auto. rewrite Hf, Hc. auto.
Qed.

Lemma no_identifier_no_wallet_entry_witness :
  calls (main [] keeping (fresh true git_wallet)).2 = [OpenWallet] /\
  folders (main ["Password: "] keeping (fresh true git_wallet)).2
  = git_wallet.
Proof.
  split.
  - apply (no_identifier_no_wallet_entry [] keeping (fresh true git_wallet)).
    reflexivity.
  - apply (no_identifier_no_wallet_entry ["Password: "] keeping
             (fresh true git_wallet)).
    reflexivity.
Defined.

(** ** Prompts no pattern matches, through the whole of [main] *)

(** C3, as amended.  For a prompt that none of the patterns matches,
    [parsePrompt] changes none of the three variables and emits one
    warning that carries the prompt: with the values [main] starts from,
    the type is [TypePassword], there is no identifier and [ignoreWallet]
    is false, so that the lookup stays allowed.  [main] then opens the
    wallet, and that is its only call on the wallet from start to end,
    whatever the user answers in the dialog: it reads no key, writes none,
    renames none, and the content of the wallet is what it was; the log
    has gained the one warning. *)
Theorem unrecognized_prompt_keeps_defaults (prompt : string)
    (rest : list string) (ui : Dialogs) (w : World) :
  unrecognized prompt ->
  (forall v, parsePrompt prompt v
             = (v, [qCWarning ["Unable to parse phrase"; prompt]])) /\
  type (parsePrompt prompt initial_vars).1 = TypePassword /\
  identifier (parsePrompt prompt initial_vars).1 = None /\
  allow_store_lookup (parsePrompt prompt initial_vars).1 = true /\
  main_lookup (prompt :: rest) w
  = ((prompt, initial_vars, available w, ""),
     mkWorld (available w) (folders w) (current w)
       (calls w ++ [OpenWallet])
       (log w ++ [qCWarning ["Unable to parse phrase"; prompt]])
       (stdout w)) /\
  calls (main (prompt :: rest) ui w).2 = calls w ++ [OpenWallet] /\
  folders (main (prompt :: rest) ui w).2 = folders w /\
  log (main (prompt :: rest) ui w).2
  = log w ++ [qCWarning ["Unable to parse phrase"; prompt]].
Proof.
  intros H.
  pose proof (parsePrompt_unrecognized prompt) as P.
  split; [intros v; apply P; exact H|].
  rewrite (P initial_vars H).
  split; [reflexivity|]. split; [reflexivity|]. split; [reflexivity|].
  assert (Hl : main_lookup (prompt :: rest) w
               = ((prompt, initial_vars, available w, ""),
                  mkWorld (available w) (folders w) (current w)
                    (calls w ++ [OpenWallet])
                    (log w ++ [qCWarning ["Unable to parse phrase"; prompt]])
                    (stdout w))).
  { unfold main_lookup, bind. rewrite run_parse_arguments.
    rewrite (P initial_vars H). reflexivity. }
  split; [exact Hl|].
  destruct (main_rest_of_world _ ui _ _ _ _ _ _ Hl) as (Hf & Hc & _ & Hg).
  change (isEmpty "") with true in Hf, Hc, Hg. cbv iota in Hf, Hc, Hg.
  rewrite ask_no_write in Hf, Hc, Hg by (right; left; reflexivity).
  rewrite Hf, Hc, Hg. auto.
Qed.

Lemma garbage_unrecognized : unrecognized "garbage".
Proof. unfold unrecognized, patterns. repeat constructor. Qed.

Lemma unrecognized_prompt_keeps_defaults_witness :
  allow_store_lookup (parsePrompt "garbage" initial_vars).1 = true /\
  calls (main ["garbage"] keeping (fresh true git_wallet)).2 = [OpenWallet] /\
  folders (main ["garbage"] keeping (fresh true git_wallet)).2 = git_wallet.
Proof.
  destruct (unrecognized_prompt_keeps_defaults "garbage" [] keeping
              (fresh true git_wallet) garbage_unrecognized)
    as (_ & _ & _ & Ha & _ & Hc & Hf & _).
  split; [exact Ha|]. split; [exact Hc | exact Hf].
Defined.

(** C3, the claim as stated fails: the prompt [garbage] matches no
    pattern, and yet after [parsePrompt] the lookup is still allowed. *)
Lemma garbage_allows_lookup :
  unrecognized "garbage" /\
  allow_store_lookup (parsePrompt "garbage" initial_vars).1 <> false.
Proof.
  split; [exact garbage_unrecognized | discriminate].
Qed.

(** ** Storing a password *)

(** The dialog step when the password dialog is accepted with the Keep box
    ticked, a wallet is open and there is an identifier: the folder is
    created if need be and the password is written under the
    identifier. *)
Lemma ask_keep (ui : Dialogs) (f dialog : string) (v : Vars) (w : World)
    (id pw : string) :
  type v <> TypeConfirm ->
  identifier v = Some id ->
  exec ui dialog true = Some (pw, true) ->
  (ask ui f dialog v true w).1 = Some pw /\
  folders (ask ui f dialog v true w).2 !! f
  = Some (<[id := pw]> (entries (folders w) f)) /\
  (forall f', f' <> f ->
     folders (ask ui f dialog v true w).2 !! f' = folders w !! f') /\
  available (ask ui f dialog v true w).2 = available w /\
  stdout (ask ui f dialog v true w).2 = stdout w.
Proof.
  intros Ht Hid He.
  assert (Hrun :
    ask ui f dialog v true w
    = ((do has <- hasFolder f ;
        (if has then ret tt else createFolder f) ;;
        setFolder f ;; writePassword id pw) ;; ret (Some pw)) w).
  { unfold ask. destruct (type v); try congruence; rewrite He, Hid;
      reflexivity. }
  rewrite Hrun. clear Hrun.
  unfold bind. rewrite run_hasFolder. unfold entries.
  destruct (folders w !! f) as [es|] eqn:Ef.
  - rewrite bool_decide_true by eauto. cbn.
    repeat split.
    + rewrite lookup_alter_eq, Ef. reflexivity.
    + intros f' Hne. apply lookup_alter_ne. congruence.
  - rewrite bool_decide_false by (intros [? ?]; discriminate). cbn.
    rewrite Ef. cbn. repeat split.
    + rewrite lookup_alter_eq, lookup_insert_eq. reflexivity.
    + intros f' Hne. rewrite lookup_alter_ne by congruence.
      apply lookup_insert_ne. congruence.
Qed.

(** The lookup when nothing is stored for the identifier. *)
Lemma lookup_nothing_stored (f id : string) (v : Vars) (w : World) :
  ignoreWallet v = false ->
  identifier v = Some id ->
  available w = true ->
  nothing_stored (entries (folders w) f) id ->
  (lookup f v w).1 = (true, "") /\
  folders (lookup f v w).2 = folders w /\
  available (lookup f v w).2 = true /\
  stdout (lookup f v w).2 = stdout w.
Proof.
  intros Hi Hid Hav (H0 & H1 & H2 & H3).
  assert (Hitem : (lookup f v w).1 = (true, "")).
  { destruct (folders w !! f) as [es|] eqn:Ef.
    - rewrite (entries_Some _ _ _ Ef) in *.
      rewrite (lookup_legacy f id v w es) by assumption.
      unfold loop_result. rewrite H1, H2, H3. reflexivity.
    - destruct w as [av fs cur cs lg out]. simpl in *. subst av.
      unfold lookup. rewrite Hi, Hid. cbn.
      rewrite bool_decide_false by (rewrite Ef; intros [? ?]; discriminate).
      reflexivity. }
  split; [exact Hitem|].
  assert (He : (lookup f v w).1.2 = "") by (now rewrite Hitem).
  destruct (lookup_empty_keeps_wallet f v w He) as [Hf _].
  rewrite lookup_available, lookup_stdout. auto.
Qed.

Lemma not_confirm_when_wallet_used (prompt : string) :
  ignoreWallet (parsePrompt prompt initial_vars).1 = false ->
  type (parsePrompt prompt initial_vars).1 <> TypeConfirm.
Proof.
  intros Hi Ht. rewrite (confirm_ignores_wallet prompt Ht) in Hi.
  discriminate.
Qed.

Lemma collected_password (ui : Dialogs) (dialog : string) (v : Vars)
    (wallet : bool) (pw : string) (keep : bool) :
  type v <> TypeConfirm ->
  exec ui dialog wallet = Some (pw, keep) ->
  collected ui dialog v wallet = Some pw.
Proof.
  intros Ht He. unfold collected.
  destruct (type v); try congruence; rewrite He; reflexivity.
Qed.

(** [main] when nothing is stored for the identifier and the user types a
    password with the Keep box ticked. *)
Lemma main_keep_run (prompt : string) (rest : list string) (ui : Dialogs)
    (w : World) (id pw : string) :
  identifier (parsePrompt prompt initial_vars).1 = Some id ->
  ignoreWallet (parsePrompt prompt initial_vars).1 = false ->
  available w = true ->
  nothing_stored (entries (folders w) applicationName) id ->
  exec ui prompt true = Some (pw, true) ->
  (main (prompt :: rest) ui w).1 = 0 /\
  stdout (main (prompt :: rest) ui w).2 = stdout w +:+ pw +:+ nl /\
  folders (main (prompt :: rest) ui w).2 !! applicationName
  = Some (<[id := pw]> (entries (folders w) applicationName)) /\
  (forall f', f' <> applicationName ->
     folders (main (prompt :: rest) ui w).2 !! f' = folders w !! f') /\
  available (main (prompt :: rest) ui w).2 = true.
Proof.
  intros Hid Hi Hav Hn He.
  pose proof (not_confirm_when_wallet_used prompt Hi) as Ht.
  pose proof (run_main_lookup (prompt :: rest) w) as Hl.
  cbn [parsed parse_warnings dialog_text] in Hl.
  set (v := (parsePrompt prompt initial_vars).1) in *.
  set (w0 := logged (parsePrompt prompt initial_vars).2 w) in *.
  destruct (lookup_nothing_stored applicationName id v w0 Hi Hid Hav Hn)
    as (Hr & Hf & Ha & Ho).
  rewrite Hr in Hl. cbn [fst snd] in Hl.
  set (w1 := (lookup applicationName v w0).2) in *.
  destruct (main_after_lookup _ ui _ _ _ _ _ _ Hl) as (_ & Hout & _).
  destruct (Hout eq_refl pw (collected_password _ _ _ _ _ _ Ht He))
    as [Hcode Hstd].
  destruct (main_rest_of_world _ ui _ _ _ _ _ _ Hl) as (Hf' & _ & Ha' & _).
  change (isEmpty "") with true in Hf', Ha'. cbv iota in Hf', Ha'.
  destruct (ask_keep ui applicationName prompt v w1 id pw Ht Hid He)
    as (_ & Hw & Hothers & Hav' & _).
  split; [exact Hcode|]. split; [exact Hstd|].
  rewrite Hf', Ha', Hav', Ha, Hw, Hf.
  split; [reflexivity|]. split; [|reflexivity].
  intros f' Hne. rewrite Hothers by exact Hne. rewrite Hf. reflexivity.
Qed.

(** X1.  When the prompt has an identifier and allows the wallet, a
    wallet is open, nothing is stored yet for the identifier and the user
    types a password with the Keep box ticked, [main] writes the password
    and a line feed to standard output, exits with 0, and afterwards the
    folder of the application (created if it was missing) holds the
    password under the identifier, with every other key and every other
    folder as before. *)
Theorem kept_password_is_stored (prompt : string) (rest : list string)
    (ui : Dialogs) (w : World) (id pw : string) :
  identifier (parsePrompt prompt initial_vars).1 = Some id ->
  ignoreWallet (parsePrompt prompt initial_vars).1 = false ->
  available w = true ->
  nothing_stored (entries (folders w) applicationName) id ->
  exec ui prompt true = Some (pw, true) ->
  (main (prompt :: rest) ui w).1 = 0 /\
  stdout (main (prompt :: rest) ui w).2 = stdout w +:+ pw +:+ nl /\
  (exists es',
     folders (main (prompt :: rest) ui w).2 !! applicationName = Some es' /\
     es' !! id = Some pw /\
     forall k, k <> id ->
       es' !! k = entries (folders w) applicationName !! k) /\
  (forall f', f' <> applicationName ->
     folders (main (prompt :: rest) ui w).2 !! f' = folders w !! f').
Proof.
  intros Hid Hi Hav Hn He.
  destruct (main_keep_run prompt rest ui w id pw Hid Hi Hav Hn He)
    as (Hc & Ho & Hf & Hothers & _).
  split; [exact Hc|]. split; [exact Ho|]. split; [|exact Hothers].
  eexists. split; [exact Hf|]. split; [apply lookup_insert_eq|].
  intros k Hk. apply lookup_insert_ne. congruence.
Qed.

Lemma kept_password_is_stored_witness :
  exists es',
    folders (main [git_prompt] keeping (fresh true ∅)).2 !! applicationName
    = Some es' /\
    es' !! "git@example.com" = Some "hunter2".
Proof.
  destruct (kept_password_is_stored git_prompt [] keeping (fresh true ∅)
              "git@example.com" "hunter2")
    as (_ & _ & (es' & H1 & H2 & _) & _).
  - reflexivity.
  - reflexivity.
  - reflexivity.
  - repeat split.
  - reflexivity.
  - exists es'. auto.
Defined.

(** X2.  Store, then look up: after such a run has stored a non-empty
    password, a second run of [main] on the same prompt finds it in the
    wallet; it writes the password with no line feed after it, exits with
    0 whatever the user would answer, and leaves the wallet content as it
    is. *)
Theorem stored_password_is_found_next_time (prompt : string)
    (rest rest' : list string) (ui ui' : Dialogs) (w : World)
    (id pw : string) :
  identifier (parsePrompt prompt initial_vars).1 = Some id ->
  ignoreWallet (parsePrompt prompt initial_vars).1 = false ->
  available w = true ->
  nothing_stored (entries (folders w) applicationName) id ->
  exec ui prompt true = Some (pw, true) ->
  pw <> "" ->
  let w' := (main (prompt :: rest) ui w).2 in
  (main (prompt :: rest') ui' w').1 = 0 /\
  stdout (main (prompt :: rest') ui' w').2 = stdout w' +:+ pw /\
  folders (main (prompt :: rest') ui' w').2 = folders w'.
Proof.
  intros Hid Hi Hav Hn He Hpw w'.
  destruct (main_keep_run prompt rest ui w id pw Hid Hi Hav Hn He)
    as (_ & _ & Hf & _ & Ha).
  fold w' in Hf, Ha.
  pose proof (run_main_lookup (prompt :: rest') w') as Hl.
  cbn [parsed parse_warnings dialog_text] in Hl.
  set (v := (parsePrompt prompt initial_vars).1) in *.
  set (w0 := logged (parsePrompt prompt initial_vars).2 w') in *.
  assert (Hs : stored (<[id := pw]> (entries (folders w) applicationName)) id
               = pw)
    by (unfold stored; rewrite lookup_insert_eq; reflexivity).
  assert (Hlk : lookup applicationName v w0
                = ((true, pw), after_canonical_read applicationName id w0)).
  { rewrite (lookup_guarded applicationName id v w0 _ Hi Hid Ha Hf).
    rewrite Hs. apply isEmpty_false in Hpw. rewrite Hpw. reflexivity. }
  rewrite Hlk in Hl. cbn [fst snd] in Hl.
  destruct (main_after_lookup _ ui' _ _ _ _ _ _ Hl) as (Hout & _).
  destruct (Hout Hpw) as [Hc Ho].
  destruct (main_rest_of_world _ ui' _ _ _ _ _ _ Hl) as (Hf' & _).
  apply isEmpty_false in Hpw. rewrite Hpw in Hf'.
  split; [exact Hc|]. split; [exact Ho|]. rewrite Hf'. reflexivity.
Qed.

Lemma stored_password_is_found_next_time_witness :
  stdout (main [git_prompt] cancelling
            (main [git_prompt] keeping (fresh true ∅)).2).2
  = stdout (main [git_prompt] keeping (fresh true ∅)).2 +:+ "hunter2".
Proof.
  apply (stored_password_is_found_next_time git_prompt [] [] keeping
           cancelling (fresh true ∅) "git@example.com" "hunter2").
  - reflexivity.
  - reflexivity.
  - reflexivity.
  - repeat split.
  - reflexivity.
  - discriminate.
Defined.

(** ** After a migration *)

(** X5.  Migrate, then look up: after a lookup that found the secret under
    a legacy key, a second lookup for the same identifier finds the secret
    under the identifier itself; it reads that key only, renames nothing
    and leaves the wallet content as the first lookup left it. *)
Theorem migrated_secret_is_found_directly (f id : string) (v : Vars)
    (w : World) (es : gmap string string) (key : string) :
  ignoreWallet v = false ->
  identifier v = Some id ->
  available w = true ->
  folders w !! f = Some es ->
  stored es id = "" ->
  first_hit id es key ->
  let w1 := (lookup f v w).2 in
  (lookup f v w1).1 = (true, stored es key) /\
  folders (lookup f v w1).2 = folders w1 /\
  exists cs, calls (lookup f v w1).2 = calls w1 ++ cs /\
             reads_of cs = [id] /\ renames_of cs = [].
Proof.
  intros Hi Hid Hav Hf He Hh w1.
  destruct (lookup_first_hit f id v w es key Hi Hid Hav Hf He Hh)
    as (_ & es' & Hf1 & Hid1 & _).
  fold w1 in Hf1.
  assert (Hav1 : available w1 = true)
    by (unfold w1; rewrite lookup_available; exact Hav).
  assert (Hs : stored es' id = stored es key)
    by (unfold stored at 1; rewrite Hid1; reflexivity).
  rewrite (lookup_guarded f id v w1 es' Hi Hid Hav1 Hf1).
  destruct Hh as [Hne _]. rewrite Hs.
  apply isEmpty_false in Hne. rewrite Hne. cbn [fst snd].
  split; [reflexivity|]. split; [reflexivity|].
  exists [OpenWallet; HasFolder f; SetFolder f; ReadPassword id].
  cbn. auto.
Qed.

Lemma migrated_secret_is_found_directly_witness :
  (lookup "ksshaskpass" alice_vars
     (lookup "ksshaskpass" alice_vars
        (fresh true {[ "ksshaskpass" := only_quoted ]})).2).1
  = (true, "s3cret").
Proof.
  apply (migrated_secret_is_found_directly "ksshaskpass" "alice" alice_vars
           (fresh true {[ "ksshaskpass" := only_quoted ]}) only_quoted
           "'alice'").
  - reflexivity.
  - reflexivity.
  - reflexivity.
  - reflexivity.
  - reflexivity.
  - split; [discriminate | left; reflexivity].
Defined.

(** X16.  For every identifier, the identifier and its three legacy keys
    are four different keys: a rename never moves a key onto itself, and
    a hit under one legacy key says nothing about the others. *)
Theorem legacy_keys_distinct (id : string) :
  NoDup (id :: map (fun templ => arg templ id) legacy_templates).
Proof.
  rewrite legacy_keys.
  repeat constructor; rewrite ?elem_of_cons, ?elem_of_nil.
  - intros [H|[H|[H|[]]]]; symmetry in H; revert H;
      [apply quoted_ne | apply spaced_ne | apply quoted_spaced_ne].
  - intros [H|[H|[]]]; revert H;
      [apply quoted_ne_spaced | apply quoted_ne_quoted_spaced].
  - intros [H|[]]; revert H. apply spaced_ne_quoted_spaced.
  - intros [].
Qed.

(** ** What [parsePrompt] decides *)

(** One step of the cascade of [parsePrompt], as a table row. *)
Lemma parsePrompt_matched (prompt : string) (v v' : Vars) :
  ~ unrecognized prompt ->
  parsePrompt prompt v = parsePrompt prompt v' /\
  (parsePrompt prompt v).2 = [].
Proof.
  intros Hn. unfold parsePrompt. cbv zeta.
  repeat match goal with
         | |- context [hasMatch (match_ ?re prompt)] =>
             destruct (match_ re prompt) eqn:?; cbn [hasMatch];
             cbv iota; [split; reflexivity|]
         end.
  exfalso. apply Hn. unfold unrecognized, patterns.
  repeat constructor; assumption.
Qed.

(** X8.  When one of the patterns matches, [parsePrompt] emits no warning
    and what it returns does not depend on the values the three variables
    had before the call: every matching branch assigns all three. *)
Theorem matched_prompt_overwrites_variables (prompt : string) (v v' : Vars) :
  ~ unrecognized prompt ->
  parsePrompt prompt v = parsePrompt prompt v' /\
  (parsePrompt prompt v).2 = [].
Proof. exact (parsePrompt_matched prompt v v'). Qed.

Lemma git_prompt_recognized : ~ unrecognized git_prompt.
Proof.
  intros H. apply Forall_inv in H. vm_compute in H. discriminate H.
Qed.

Lemma matched_prompt_overwrites_variables_witness :
  parsePrompt git_prompt (mkVars (Some "stale") true TypeConfirm)
  = parsePrompt git_prompt initial_vars.
Proof.
  apply (matched_prompt_overwrites_variables git_prompt).
  exact git_prompt_recognized.
Defined.

(** X9.  Every prompt that [parsePrompt] takes for a confirmation also
    gets [ignoreWallet]: for such a prompt [main] makes no call on the
    wallet and leaves its content alone, whatever the user answers. *)
Theorem confirmation_never_uses_wallet (prompt : string)
    (rest : list string) (ui : Dialogs) (w : World) :
  type (parsePrompt prompt initial_vars).1 = TypeConfirm ->
  ignoreWallet (parsePrompt prompt initial_vars).1 = true /\
  calls (main (prompt :: rest) ui w).2 = calls w /\
  folders (main (prompt :: rest) ui w).2 = folders w.
Proof.
  intros Ht. pose proof (confirm_ignores_wallet prompt Ht) as Hi.
  split; [exact Hi|]. exact (main_ignores_wallet prompt rest ui w Hi).
Qed.

Lemma confirmation_never_uses_wallet_witness :
  calls (main ["Allow forward to example.org:22? "] keeping
           (fresh true git_wallet)).2 = [].
Proof.
  apply (confirmation_never_uses_wallet "Allow forward to example.org:22? "
           [] keeping (fresh true git_wallet)).
  reflexivity.
Defined.

(** ** Groups that always take part in a match *)

Lemma keeps_accept n : keeps n accept.
Proof. intros s p c res [= <-] H. exact H. Qed.

Lemma keeps_many_greedy n k : keeps n k -> keeps n (fun s p c => many_greedy s p c k).
Proof.
  intros Hk s. induction s as [|a s IH]; intros p c res; simpl.
  - apply Hk.
  - destruct (is_newline a); [apply Hk|].
    destruct (many_greedy s (S p) c k) eqn:E.
    + intros [= <-]. exact (IH _ _ _ E).
    + apply Hk.
Qed.

Lemma keeps_many_lazy n k : keeps n k -> keeps n (fun s p c => many_lazy s p c k).
Proof.
  intros Hk s. induction s as [|a s IH]; intros p c res; simpl.
  - destruct (k "" p c) eqn:E; [|discriminate].
    intros [= <-]. exact (Hk _ _ _ _ E).
  - destruct (k (String a s) p c) eqn:E.
    + intros [= <-]. exact (Hk _ _ _ _ E).
    + destruct (is_newline a); [discriminate|]. apply IH.
Qed.

Lemma keeps_group n m (s0 : string) (p0 : nat) k :
  keeps n k ->
  keeps n (fun s' p' c' => k s' p' ((m, prefix (p' - p0) s0) :: c')).
Proof.
  intros Hk s p c res H Hc. apply (Hk _ _ _ _ H).
  simpl. destruct (Nat.eqb n m); [eauto | exact Hc].
Qed.

Lemma keeps_rmatch n (r : regex) :
  forall k, keeps n k -> keeps n (fun s p c => rmatch r s p c k).
Proof.
  induction r as [|a| | |r1 IH1 r2 IH2|r1 IH1 r2 IH2|r1 IH1|g|m r1 IH1];
    intros k Hk s p c res; simpl.
  - apply Hk.
  - destruct s as [|b s]; [discriminate|].
    destruct (Ascii.eqb a b); [apply Hk | discriminate].
  - destruct (Nat.eqb p 0); [apply Hk | discriminate].
  - destruct (at_end s); [apply Hk | discriminate].
  - apply (IH1 _ (IH2 _ Hk)).
  - destruct (rmatch r1 s p c k) eqn:E.
    + intros [= <-]. exact (IH1 _ Hk _ _ _ _ E).
    + apply (IH2 _ Hk).
  - destruct (rmatch r1 s p c k) eqn:E.
    + intros [= <-]. exact (IH1 _ Hk _ _ _ _ E).
    + apply Hk.
  - destruct g; [apply (keeps_many_greedy n k Hk)
                | apply (keeps_many_lazy n k Hk)].
  - apply (IH1 _ (keeps_group n m s p k Hk)).
Qed.

Lemma sets_rmatch n (r : regex) :
  sets n r = true ->
  forall k s p c res,
    keeps n k -> rmatch r s p c k = Some res -> is_Some (cap_lookup n res).
Proof.
  induction r as [|a| | |r1 IH1 r2 IH2|r1 IH1 r2 IH2|r1 IH1|g|m r1 IH1];
    simpl; try discriminate; intros Hs k s p c res Hk H.
  - apply orb_prop in Hs. destruct Hs as [Hs|Hs].
    + apply (IH1 Hs _ _ _ _ _ (keeps_rmatch n r2 k Hk) H).
    + apply rmatch_suffix in H. destruct H as (s' & p' & c' & _ & H).
      apply (IH2 Hs _ _ _ _ _ Hk H).
  - apply andb_prop in Hs. destruct Hs as [Hs1 Hs2].
    destruct (rmatch r1 s p c k) eqn:E.
    + injection H as <-. apply (IH1 Hs1 _ _ _ _ _ Hk E).
    + apply (IH2 Hs2 _ _ _ _ _ Hk H).
  - apply orb_prop in Hs. destruct Hs as [Hs|Hs].
    + apply rmatch_suffix in H. destruct H as (s' & p' & c' & _ & H).
      apply (Hk _ _ _ _ H). simpl. rewrite Hs. eauto.
    + apply (IH1 Hs _ _ _ _ _ (keeps_group n m s p k Hk) H).
Qed.

Lemma match_sets (n : nat) (re : regex) (s : string) (c : caps) :
  sets n re = true -> match_ re s = Some c -> is_Some (cap_lookup n c).
Proof.
  intros Hs H. unfold match_ in H. apply search_suffix in H.
  destruct H as (s' & p' & _ & H).
  exact (sets_rmatch n re Hs _ _ _ _ _ (keeps_accept n) H).
Qed.

(** X10.  Every recognized prompt for which [parsePrompt] leaves the
    wallet in use has an identifier: the groups that the wallet-using
    patterns take the identifier from take part in every match, so the
    identifier is never the null string (it can be the empty string). *)
Theorem wallet_prompt_has_identifier (prompt : string) (v : Vars) :
  ~ unrecognized prompt ->
  ignoreWallet (parsePrompt prompt v).1 = false ->
  is_Some (identifier (parsePrompt prompt v).1).
Proof.
  intros Hn. unfold parsePrompt. cbv zeta.
  repeat match goal with
         | |- context [hasMatch (match_ ?re prompt)] =>
             let E := fresh "E" in
             destruct (match_ re prompt) eqn:E; cbn [hasMatch]; cbv iota;
             [cbn [found fst ignoreWallet identifier captured];
              first [discriminate
                    | intros _; eapply match_sets; [|exact E]; reflexivity]|]
         end.
  exfalso. apply Hn. unfold unrecognized, patterns.
  repeat constructor; assumption.
Qed.

Lemma wallet_prompt_has_identifier_witness :
  is_Some (identifier (parsePrompt git_prompt initial_vars).1).
Proof.
  apply (wallet_prompt_has_identifier git_prompt initial_vars).
  - exact git_prompt_recognized.
  - reflexivity.
Defined.

(** * Further properties of [parsePrompt] *)

(** ** Greedy runs *)

(** A greedy run over a prefix without line feed does at least as well as
    a run that starts after the prefix. *)
Lemma many_greedy_split (y t : string) (c : caps) (k : cont) (res : caps) :
  forall pos,
    no_newline y = true ->
    many_greedy t (pos + String.length y) c k = Some res ->
    many_greedy (y +:+ t) pos c k = Some res.
Proof.
  induction y as [|b y IH]; intros pos Hy H; simpl in *.
  - now rewrite Nat.add_0_r in H.
  - apply andb_prop in Hy. destruct Hy as [Hb Hy].
    apply negb_true_iff in Hb. rewrite Hb.
    rewrite (IH (S pos)); auto.
    replace (S pos + String.length y) with (pos + S (String.length y))
      by lia.
    exact H.
Qed.

Lemma search_hit (r : regex) (s : string) (pos : nat) (res : caps) :
  rmatch r s pos [] accept = Some res -> search r s pos = Some res.
Proof. intros H. destruct s; simpl; rewrite H; reflexivity. Qed.

Ltac capture_done :=
  unfold accept; rewrite ?Nat.sub_0_r, ?prefix_app; reflexivity.

Lemma pin_match (x : string) :
  no_newline x = true ->
  match_ re_pin (pin_prompt x) = Some [(1, x)].
Proof.
  intros Hx. unfold match_. apply search_hit.
  unfold re_pin, pin_prompt. cbn [cat rmatch]. rewrite lit_run.
  apply many_greedy_split; [exact Hx|].
  simpl. capture_done.
Qed.

(** ** Patterns refused because of the end of the prompt *)

(** Two strings with different endings of the same length differ, also
    when the second ending comes after some more text. *)
Lemma tails_clash (a p t0 u v : string) :
  String.length u = String.length v -> u <> v ->
  a +:+ u <> p +:+ (t0 +:+ v).
Proof.
  intros Hl Hne. rewrite <- (append_assoc p t0 v).
  apply tail_differs; assumption.
Qed.

(** What the first pattern needs at the end of the prompt. *)
Lemma ssh_password_tail (s : string) (res : caps) :
  match_ re_ssh_password s = Some res ->
  exists p t, s = p +:+ (t +:+ "d: ") \/ s = p +:+ (t +:+ "): ") \/
              s = p +:+ (t +:+ nl).
Proof.
  unfold match_. intros H. apply search_suffix in H.
  destruct H as (s1 & p1 & Hs1 & H).
  change re_ssh_password
    with (cat ([Bol; Group 1 user_at_host]
               ++ [lit "'s password"; Opt (Group 2 (lit " (JPAKE)"));
                   lit ": "; Eol])) in H.
  apply cat_suffix in H. destruct H as (s2 & p2 & c2 & Hs2 & H).
  destruct (suffix_of_trans _ _ _ Hs2 Hs1) as [p Hp]. subst s.
  cbn [cat rmatch] in H. apply lit_inv in H.
  destruct H as (s3 & -> & H).
  match type of H with
  | match ?m with _ => _ end = _ => destruct m eqn:E
  end.
  - clear H. apply lit_inv in E. destruct E as (s4 & -> & E).
    apply lit_inv in E. destruct E as (s5 & -> & E).
    destruct (at_end s5) eqn:Ee; [|discriminate].
    destruct (at_end_inv s5 Ee) as [->| ->].
    + exists p, "'s password (JPAKE". right; left. reflexivity.
    + exists p, "'s password (JPAKE): ". right; right. reflexivity.
  - apply lit_inv in H. destruct H as (s5 & -> & H).
    destruct (at_end s5) eqn:Ee; [|discriminate].
    destruct (at_end_inv s5 Ee) as [->| ->].
    + exists p, "'s passwor". left. reflexivity.
    + exists p, "'s password: ". right; right. reflexivity.
Qed.

(** A prompt that ends with a quote, a colon and a space is refused by
    the first two patterns. *)
Lemma quote_tail (a p t : string) :
  a +:+ "': " <> p +:+ (t +:+ "d: ") /\
  a +:+ "': " <> p +:+ (t +:+ "): ") /\
  a +:+ "': " <> p +:+ (t +:+ nl).
Proof.
  split; [|split].
  - apply tails_clash; [reflexivity | discriminate].
  - apply tails_clash; [reflexivity | discriminate].
  - change (a +:+ "': ") with (a +:+ ("':" +:+ " ")).
    rewrite <- (append_assoc a "':" " ").
    apply tails_clash; [reflexivity | discriminate].
Qed.

Lemma ssh_password_refuses_quote (a : string) :
  match_ re_ssh_password (a +:+ "': ") = None.
Proof.
  destruct (match_ re_ssh_password (a +:+ "': ")) as [res|] eqn:E;
    [|reflexivity].
  apply ssh_password_tail in E. destruct E as (p & t & E).
  destruct (quote_tail a p t) as (H1 & H2 & H3).
  destruct E as [E|[E|E]]; [elim (H1 E) | elim (H2 E) | elim (H3 E)].
Qed.

Lemma password_change_refuses_quote (a : string) :
  match_ re_password_change (a +:+ "': ") = None.
Proof.
  destruct (match_ re_password_change (a +:+ "': ")) as [res|] eqn:E;
    [|reflexivity].
  unfold match_ in E.
  change re_password_change
    with (cat ([Bol; Group 1 (Alt (lit "Enter") (lit "Retype")); lit " ";
                Group 2 user_at_host; lit "'s ";
                Group 3 (Alt (lit "old") (lit "new"))]
               ++ [lit " password: "; Eol])) in E.
  apply needs_tail in E. destruct E as [p E].
  destruct (quote_tail a p " passwor") as (H1 & _ & _).
  destruct (quote_tail a p " password: ") as (_ & _ & H3).
  destruct E as [E|E]; [elim (H1 E) | elim (H3 E)].
Qed.

Lemma pin_prompt_tail (x : string) :
  pin_prompt x = ("Enter PIN for '" +:+ x) +:+ "': ".
Proof. unfold pin_prompt. now rewrite append_assoc. Qed.

Ltac refuse_at_start re :=
  unfold re; cbn [cat]; rewrite match_anchored; reflexivity.

Ltac split_Forall :=
  repeat match goal with
         | |- Forall _ (_ :: _) => constructor
         | |- Forall _ [] => constructor
         end.

(** Run the cascade of [parsePrompt] with the patterns of [H] refused. *)
Ltac skip_refused H :=
  repeat match type of H with
         | Forall _ (_ :: _) =>
             let E := fresh "E" in
             apply Forall_cons_1 in H; destruct H as [E H]
         end;
  unfold parsePrompt;
  repeat match goal with
         | E : match_ _ _ = None |- _ => rewrite E; clear E
         end.

Lemma pin_not_earlier (x : string) :
  Forall (fun re => match_ re (pin_prompt x) = None)
    [re_ssh_password; re_password_change; re_key_passphrase;
     re_add_passphrase; re_bad_passphrase].
Proof.
  split_Forall.
  - rewrite pin_prompt_tail. apply ssh_password_refuses_quote.
  - rewrite pin_prompt_tail. apply password_change_refuses_quote.
  - unfold pin_prompt. refuse_at_start re_key_passphrase.
  - unfold pin_prompt. refuse_at_start re_add_passphrase.
  - unfold pin_prompt. refuse_at_start re_bad_passphrase.
Qed.

(** X11.  For every token label [x] without a line feed, the PIN prompt
    of [ssh-pkcs11.c] is classified as a hidden password that may use the
    wallet, with exactly [x] as the identifier, whatever [x] contains
    otherwise (quotes, colons, the text of other prompts). *)
Theorem pin_prompt_identifier (x : string) (v : Vars) :
  no_newline x = true ->
  parsePrompt (pin_prompt x) v = (mkVars (Some x) false TypePassword, []).
Proof.
  intros Hx. pose proof (pin_not_earlier x) as H. skip_refused H.
  rewrite (pin_match x Hx). reflexivity.
Qed.

Lemma pin_prompt_identifier_witness :
  identifier (parsePrompt (pin_prompt "it's: my 'token'") initial_vars).1
  = Some "it's: my 'token'".
Proof.
  rewrite (pin_prompt_identifier "it's: my 'token'" initial_vars);
    reflexivity.
Defined.

(** ** The passphrase of a key file *)

Ltac greedy_capture x Hx :=
  repeat match goal with
         | |- context [EmptyString +:+ ?z] => change (EmptyString +:+ z) with z
         end;
  erewrite (many_greedy_split x);
  [reflexivity | exact Hx | simpl; capture_done].

Lemma key_passphrase_match (rsa : bool) (x : string) :
  no_newline x = true ->
  match_ re_key_passphrase (key_passphrase_prompt rsa x)
  = Some (if rsa then [(2, x); (1, " RSA")] else [(2, x)]).
Proof.
  intros Hx. unfold re_key_passphrase, key_passphrase_prompt.
  cbn [cat]. rewrite match_anchored.
  destruct rsa; simpl; greedy_capture x Hx.
Qed.

Lemma key_passphrase_prompt_tail (rsa : bool) (x : string) :
  exists a, key_passphrase_prompt rsa x = a +:+ "': ".
Proof.
  exists (("Enter passphrase for" +:+ (if rsa then " RSA" else "")
           +:+ " key '") +:+ x).
  unfold key_passphrase_prompt. now rewrite !append_assoc.
Qed.

Lemma key_passphrase_not_earlier (rsa : bool) (x : string) :
  Forall (fun re => match_ re (key_passphrase_prompt rsa x) = None)
    [re_ssh_password; re_password_change].
Proof.
  destruct (key_passphrase_prompt_tail rsa x) as [a ->].
  split_Forall.
  - apply ssh_password_refuses_quote.
  - apply password_change_refuses_quote.
Qed.

(** X12.  For every key file name [x] without a line feed, the two
    passphrase prompts of ssh, with and without [RSA], are classified as a
    hidden password that may use the wallet, with exactly [x] as the
    identifier. *)
Theorem key_passphrase_identifier (rsa : bool) (x : string) (v : Vars) :
  no_newline x = true ->
  parsePrompt (key_passphrase_prompt rsa x) v
  = (mkVars (Some x) false TypePassword, []).
Proof.
  intros Hx. pose proof (key_passphrase_not_earlier rsa x) as H.
  skip_refused H.
  rewrite (key_passphrase_match rsa x Hx). destruct rsa; reflexivity.
Qed.

Lemma key_passphrase_identifier_witness :
  identifier
    (parsePrompt (key_passphrase_prompt true "/home/u/.ssh/id_rsa")
       initial_vars).1
  = Some "/home/u/.ssh/id_rsa".
Proof.
  rewrite (key_passphrase_identifier true "/home/u/.ssh/id_rsa"
             initial_vars); reflexivity.
Defined.

(** ** Shared connections *)

Lemma shared_connection_match (terminate : bool) (x : string) :
  no_newline x = true ->
  match_ re_shared_connection (shared_connection_prompt terminate x)
  = Some [(2, x); (1, if terminate then "Terminate" else "Allow")].
Proof.
  intros Hx. unfold re_shared_connection, shared_connection_prompt.
  cbn [cat]. rewrite match_anchored.
  destruct terminate; simpl; greedy_capture x Hx.
Qed.

Lemma shared_connection_prompt_tail (terminate : bool) (x : string) :
  exists a, shared_connection_prompt terminate x = a +:+ "? ".
Proof.
  exists (((if terminate then "Terminate" else "Allow")
           +:+ " shared connection to ") +:+ x).
  unfold shared_connection_prompt. now rewrite !append_assoc.
Qed.

Lemma shared_connection_not_earlier (terminate : bool) (x : string) :
  Forall (fun re => match_ re (shared_connection_prompt terminate x) = None)
    [re_ssh_password; re_password_change; re_key_passphrase;
     re_add_passphrase; re_bad_passphrase; re_pin].
Proof.
  split_Forall.
  - destruct (shared_connection_prompt_tail terminate x) as [a ->].
    apply ssh_password_refuses_question.
  - destruct terminate; unfold shared_connection_prompt;
      refuse_at_start re_password_change.
  - destruct terminate; unfold shared_connection_prompt;
      refuse_at_start re_key_passphrase.
  - destruct terminate; unfold shared_connection_prompt;
      refuse_at_start re_add_passphrase.
  - destruct terminate; unfold shared_connection_prompt;
      refuse_at_start re_bad_passphrase.
  - destruct (shared_connection_prompt_tail terminate x) as [a ->].
    apply pin_refuses_question.
Qed.

(** X13.  For every host [x] without a line feed, the two prompts of
    [mux.c] about a shared connection are classified as a confirmation
    that ignores the wallet, with exactly [x] as the identifier: here the
    question mark of the pattern is escaped and stays out of the
    identifier. *)
Theorem shared_connection_identifier (terminate : bool) (x : string)
    (v : Vars) :
  no_newline x = true ->
  parsePrompt (shared_connection_prompt terminate x) v
  = (mkVars (Some x) true TypeConfirm, []).
Proof.
  intros Hx. pose proof (shared_connection_not_earlier terminate x) as H.
  skip_refused H.
  rewrite (shared_connection_match terminate x Hx). reflexivity.
Qed.

Lemma shared_connection_identifier_witness :
  identifier
    (parsePrompt (shared_connection_prompt true "example.org")
       initial_vars).1
  = Some "example.org".
Proof.
  rewrite (shared_connection_identifier true "example.org" initial_vars);
    reflexivity.
Defined.

(** ** Groups with a separator: user at host, host and port *)

(** The continuation of the first run of such a group: the separator and
    a second run. *)
Lemma separator_never (a : ascii) (c : caps) (k : cont) (t : string) :
  has_char a t = false ->
  forall q,
    many_greedy t q c
      (fun s1 p1 c1 => rmatch (Seq (Chr a) (Seq (Many true) Eps)) s1 p1 c1 k)
    = None.
Proof.
  induction t as [|b t IH]; intros Ht q; [reflexivity|].
  simpl in Ht. apply orb_false_iff in Ht. destruct Ht as [Hb Ht].
  simpl. rewrite Hb, (IH Ht).
  destruct (is_newline b); reflexivity.
Qed.

(** The first run backs off to a separator; whichever separator that is,
    the second run then ends where the text after the group begins. *)
Lemma separator_run (a : ascii) (t : string) (c : caps) (k : cont)
    (res : caps) :
  has_char a t = false ->
  forall r q,
    no_newline r = true ->
    many_greedy t (q + String.length r) c k = Some res ->
    many_greedy (r +:+ t) q c
      (fun s1 p1 c1 => rmatch (Seq (Chr a) (Seq (Many true) Eps)) s1 p1 c1 k)
    = if has_char a r then Some res else None.
Proof.
  intros Ht. induction r as [|b r IH]; intros q Hr H.
  - apply separator_never. exact Ht.
  - simpl in Hr. apply andb_prop in Hr. destruct Hr as [Hb Hr].
    apply negb_true_iff in Hb.
    assert (H' : many_greedy t (S q + String.length r) c k = Some res).
    { replace (S q + String.length r) with (q + String.length (String b r))
        by (simpl; lia). exact H. }
    change (String b r +:+ t) with (String b (r +:+ t)).
    cbn [many_greedy has_char]. rewrite Hb, (IH (S q) Hr H').
    destruct (has_char a r); [now rewrite orb_true_r|].
    rewrite orb_false_r. cbn [rmatch].
    destruct (Ascii.eqb a b); [|reflexivity].
    apply (many_greedy_split r t c _ res (S q) Hr). exact H'.
Qed.

Lemma separator_group (a : ascii) (x t : string) (p0 : nat) (c : caps)
    (k : cont) (res : caps) :
  no_newline x = true ->
  has_char a x = true ->
  has_char a t = false ->
  many_greedy t (p0 + String.length x) c
    (fun s' pos' c' => k s' pos' ((1, prefix (pos' - p0) (x +:+ t)) :: c'))
  = Some res ->
  rmatch (Group 1 (cat [Many true; Chr a; Many true])) (x +:+ t) p0 c k
  = Some res.
Proof.
  intros Hx Ha Ht H.
  cbn [cat]. cbn [rmatch].
  pose proof (separator_run a t c _ res Ht x p0 Hx H) as R.
  rewrite Ha in R. exact R.
Qed.

Lemma rmatch_seq (r1 r2 : regex) (s : string) (pos : nat) (c : caps)
    (k : cont) :
  rmatch (Seq r1 r2) s pos c k
  = rmatch r1 s pos c (fun s' pos' c' => rmatch r2 s' pos' c' k).
Proof. reflexivity. Qed.

Lemma ssh_password_match (jpake : bool) (x : string) :
  no_newline x = true ->
  has_char "@" x = true ->
  match_ re_ssh_password (ssh_password_prompt jpake x)
  = Some (if jpake then [(2, " (JPAKE)"); (1, x)] else [(1, x)]).
Proof.
  intros Hx Ha. unfold re_ssh_password, ssh_password_prompt.
  cbn [cat]. rewrite match_anchored. rewrite rmatch_seq.
  unfold user_at_host.
  destruct jpake.
  - apply (separator_group "@" x); [exact Hx | exact Ha | reflexivity |].
    simpl. unfold accept. rewrite Nat.sub_0_r, prefix_app.
    replace (S (S (S (S (S (S (S (S (String.length x))))))))
             - String.length x) with 8 by lia.
    reflexivity.
  - apply (separator_group "@" x); [exact Hx | exact Ha | reflexivity |].
    simpl. capture_done.
Qed.

(** X14.  For every [x] without a line feed that contains an at sign, the
    password prompt of ssh, with or without [(JPAKE)], is classified as a
    hidden password that may use the wallet, with exactly [x] as the
    identifier, wherever the at signs are and whatever else [x]
    contains. *)
Theorem ssh_password_identifier (jpake : bool) (x : string) (v : Vars) :
  no_newline x = true ->
  has_char "@" x = true ->
  parsePrompt (ssh_password_prompt jpake x) v
  = (mkVars (Some x) false TypePassword, []).
Proof.
  intros Hx Ha. unfold parsePrompt.
  rewrite (ssh_password_match jpake x Hx Ha). destruct jpake; reflexivity.
Qed.

Lemma ssh_password_identifier_witness :
  identifier
    (parsePrompt (ssh_password_prompt false "git@example.com")
       initial_vars).1
  = Some "git@example.com".
Proof.
  rewrite (ssh_password_identifier false "git@example.com" initial_vars);
    reflexivity.
Defined.

(** ** Forwards *)

Lemma forward_match (x : string) :
  no_newline x = true ->
  has_char ":" x = true ->
  match_ re_forward (forward_prompt x) = Some [(1, x)].
Proof.
  intros Hx Ha. unfold re_forward, forward_prompt.
  cbn [cat]. rewrite match_anchored. rewrite rmatch_seq, lit_run.
  rewrite rmatch_seq.
  apply (separator_group ":" x); [exact Hx | exact Ha | reflexivity |].
  simpl. capture_done.
Qed.

Lemma forward_prompt_tail (x : string) :
  forward_prompt x = ("Allow forward to " +:+ x) +:+ "? ".
Proof. unfold forward_prompt. now rewrite append_assoc. Qed.

Lemma forward_not_earlier (x : string) :
  Forall (fun re => match_ re (forward_prompt x) = None)
    [re_ssh_password; re_password_change; re_key_passphrase;
     re_add_passphrase; re_bad_passphrase; re_pin; re_shared_connection;
     re_open].
Proof.
  split_Forall.
  - rewrite forward_prompt_tail. apply ssh_password_refuses_question.
  - unfold forward_prompt. refuse_at_start re_password_change.
  - unfold forward_prompt. refuse_at_start re_key_passphrase.
  - unfold forward_prompt. refuse_at_start re_add_passphrase.
  - unfold forward_prompt. refuse_at_start re_bad_passphrase.
  - rewrite forward_prompt_tail. apply pin_refuses_question.
  - unfold forward_prompt. refuse_at_start re_shared_connection.
  - unfold forward_prompt. refuse_at_start re_open.
Qed.

(** X15.  For every [x] without a line feed that contains a colon, the
    forward prompt of [mux.c] is classified as a confirmation that
    ignores the wallet, with exactly [x] as the identifier. *)
Theorem forward_identifier (x : string) (v : Vars) :
  no_newline x = true ->
  has_char ":" x = true ->
  parsePrompt (forward_prompt x) v = (mkVars (Some x) true TypeConfirm, []).
Proof.
  intros Hx Ha. pose proof (forward_not_earlier x) as H. skip_refused H.
  rewrite (forward_match x Hx Ha). reflexivity.
Qed.

Lemma forward_identifier_witness :
  identifier (parsePrompt (forward_prompt "example.org:22") initial_vars).1
  = Some "example.org:22".
Proof.
  rewrite (forward_identifier "example.org:22" initial_vars); reflexivity.
Defined.

(** ** The prompts of git-lfs *)

(** A lazy run stops at the first place where the continuation
    succeeds. *)
Lemma many_lazy_last (y t : string) (c : caps) (k : cont) (res : caps) :
  (forall z p, z <> "" -> k (z +:+ t) p c = None) ->
  forall pos,
    no_newline y = true ->
    k t (pos + String.length y) c = Some res ->
    many_lazy (y +:+ t) pos c k = Some res.
Proof.
  intros Hfail. induction y as [|b y IH]; intros pos Hy H.
  - simpl in H. rewrite Nat.add_0_r in H.
    change ("" +:+ t) with t. destruct t; simpl; rewrite H; reflexivity.
  - simpl in Hy. apply andb_prop in Hy. destruct Hy as [Hb Hy].
    apply negb_true_iff in Hb.
    change (String b y +:+ t) with (String b (y +:+ t)).
    cbn [many_lazy].
    change (String b (y +:+ t)) with (String b y +:+ t).
    rewrite (Hfail (String b y) pos) by discriminate.
    rewrite Hb. apply IH; [exact Hy|].
    replace (S pos + String.length y) with (pos + String.length (String b y))
      by (simpl; lia).
    exact H.
Qed.

Lemma at_end_before_quote (z : string) : at_end (z +:+ dq) = false.
Proof.
  destruct z as [|a [|b z]]; reflexivity.
Qed.

(** The text between the quotes of a git-lfs prompt, for the two
    patterns of lines 207 and 216. *)
Lemma lfs_group (t0 x : string) (p0 : nat) :
  no_newline x = true ->
  rmatch (cat [lit t0; Chr DQUOTE; Group 1 (Many false); Chr DQUOTE; Eol])
    (t0 +:+ dq +:+ x +:+ dq) p0 [] accept
  = Some [(1, x)].
Proof.
  intros Hx. cbn [cat]. rewrite rmatch_seq, lit_run.
  unfold dq at 1. change (String DQUOTE "" +:+ x +:+ dq)
    with (String DQUOTE (x +:+ dq)).
  cbn [rmatch]. rewrite Ascii.eqb_refl.
  apply many_lazy_last; [|exact Hx|].
  - intros [|a z] p Hz; [congruence|].
    change (String a z +:+ dq) with (String a (z +:+ dq)). cbv iota beta.
    destruct (Ascii.eqb DQUOTE a); [|reflexivity].
    rewrite at_end_before_quote. reflexivity.
  - unfold dq. cbn [at_end]. rewrite Ascii.eqb_refl. cbn [at_end].
    unfold accept.
    replace (S (p0 + String.length t0) + String.length x
             - S (p0 + String.length t0))
      with (String.length x) by lia.
    rewrite prefix_app. reflexivity.
Qed.

Lemma lfs_match (password : bool) (x : string) :
  no_newline x = true ->
  match_ (if password then re_lfs_password else re_lfs_username)
    (lfs_prompt password x)
  = Some [(1, x)].
Proof.
  intros Hx. destruct password.
  - change (lfs_prompt true x) with ("Password for " +:+ dq +:+ x +:+ dq).
    unfold re_lfs_password.
    change (cat [Bol; lit "Password for "; Chr DQUOTE; Group 1 (Many false);
                 Chr DQUOTE; Eol])
      with (Seq Bol (cat [lit "Password for "; Chr DQUOTE;
                          Group 1 (Many false); Chr DQUOTE; Eol])).
    rewrite match_anchored. apply lfs_group. exact Hx.
  - change (lfs_prompt false x) with ("Username for " +:+ dq +:+ x +:+ dq).
    unfold re_lfs_username.
    change (cat [Bol; lit "Username for "; Chr DQUOTE; Group 1 (Many false);
                 Chr DQUOTE; Eol])
      with (Seq Bol (cat [lit "Username for "; Chr DQUOTE;
                          Group 1 (Many false); Chr DQUOTE; Eol])).
    rewrite match_anchored. apply lfs_group. exact Hx.
Qed.

Lemma dquote_tail (a p t : string) :
  a +:+ dq <> p +:+ (t +:+ "d: ") /\
  a +:+ dq <> p +:+ (t +:+ "): ") /\
  a +:+ dq <> p +:+ (t +:+ nl) /\
  a +:+ dq <> p +:+ "': ".
Proof.
  repeat split.
  - change "d: " with ("d:" +:+ " "). rewrite <- (append_assoc t "d:" " ").
    apply tails_clash; [reflexivity | discriminate].
  - change "): " with ("):" +:+ " "). rewrite <- (append_assoc t "):" " ").
    apply tails_clash; [reflexivity | discriminate].
  - apply tails_clash; [reflexivity | discriminate].
  - change "': " with ("':" +:+ " ").
    apply tails_clash; [reflexivity | discriminate].
Qed.

Lemma ssh_password_refuses_dquote (a : string) :
  match_ re_ssh_password (a +:+ dq) = None.
Proof.
  destruct (match_ re_ssh_password (a +:+ dq)) as [res|] eqn:E;
    [|reflexivity].
  apply ssh_password_tail in E. destruct E as (p & t & E).
  destruct (dquote_tail a p t) as (H1 & H2 & H3 & _).
  destruct E as [E|[E|E]]; [elim (H1 E) | elim (H2 E) | elim (H3 E)].
Qed.

Lemma pin_refuses_dquote (a : string) :
  match_ re_pin (a +:+ dq) = None.
Proof.
  destruct (match_ re_pin (a +:+ dq)) as [res|] eqn:E; [|reflexivity].
  unfold match_ in E.
  change re_pin
    with (cat ([lit "Enter PIN for '"; Group 1 (Many true)]
               ++ [lit "': "; Eol])) in E.
  apply needs_tail in E. destruct E as [p E].
  destruct (dquote_tail a p "': ") as (_ & _ & H3 & H4).
  destruct E as [E|E]; [elim (H4 E) | elim (H3 E)].
Qed.

Lemma lfs_prompt_tail (password : bool) (x : string) :
  exists a, lfs_prompt password x = a +:+ dq.
Proof.
  exists (((if password then "Password" else "Username") +:+ " for " +:+ dq)
          +:+ x).
  unfold lfs_prompt. now rewrite !append_assoc.
Qed.

Ltac refuse_lfs re :=
  unfold lfs_prompt, dq; refuse_at_start re.

Lemma lfs_username_not_earlier (x : string) :
  Forall (fun re => match_ re (lfs_prompt false x) = None)
    [re_ssh_password; re_password_change; re_key_passphrase;
     re_add_passphrase; re_bad_passphrase; re_pin; re_shared_connection;
     re_open; re_forward; re_disable_mux; re_use_key; re_add_key;
     re_imap_password; re_username; re_password; re_username_for;
     re_password_for].
Proof.
  split_Forall.
  - destruct (lfs_prompt_tail false x) as [a ->].
    apply ssh_password_refuses_dquote.
  - refuse_lfs re_password_change.
  - refuse_lfs re_key_passphrase.
  - refuse_lfs re_add_passphrase.
  - refuse_lfs re_bad_passphrase.
  - destruct (lfs_prompt_tail false x) as [a ->]. apply pin_refuses_dquote.
  - refuse_lfs re_shared_connection.
  - refuse_lfs re_open.
  - refuse_lfs re_forward.
  - refuse_lfs re_disable_mux.
  - refuse_lfs re_use_key.
  - refuse_lfs re_add_key.
  - refuse_lfs re_imap_password.
  - refuse_lfs re_username.
  - refuse_lfs re_password.
  - refuse_lfs re_username_for.
  - refuse_lfs re_password_for.
Qed.

Lemma lfs_password_not_earlier (x : string) :
  Forall (fun re => match_ re (lfs_prompt true x) = None)
    [re_ssh_password; re_password_change; re_key_passphrase;
     re_add_passphrase; re_bad_passphrase; re_pin; re_shared_connection;
     re_open; re_forward; re_disable_mux; re_use_key; re_add_key;
     re_imap_password; re_username; re_password; re_username_for;
     re_password_for; re_lfs_username].
Proof.
  split_Forall.
  - destruct (lfs_prompt_tail true x) as [a ->].
    apply ssh_password_refuses_dquote.
  - refuse_lfs re_password_change.
  - refuse_lfs re_key_passphrase.
  - refuse_lfs re_add_passphrase.
  - refuse_lfs re_bad_passphrase.
  - destruct (lfs_prompt_tail true x) as [a ->]. apply pin_refuses_dquote.
  - refuse_lfs re_shared_connection.
  - refuse_lfs re_open.
  - refuse_lfs re_forward.
  - refuse_lfs re_disable_mux.
  - refuse_lfs re_use_key.
  - refuse_lfs re_add_key.
  - refuse_lfs re_imap_password.
  - refuse_lfs re_username.
  - refuse_lfs re_password.
  - refuse_lfs re_username_for.
  - refuse_lfs re_password_for.
  - refuse_lfs re_lfs_username.
Qed.

(** X17.  For every [x] without a line feed, the two prompts of git-lfs
    are classified with exactly [x], the text between the first and the
    last double quote, as the identifier and with the wallet in use: the
    user name as visible text, the password as a hidden password. *)
Theorem lfs_prompt_identifier (password : bool) (x : string) (v : Vars) :
  no_newline x = true ->
  parsePrompt (lfs_prompt password x) v
  = (mkVars (Some x) false
       (if password then TypePassword else TypeClearText), []).
Proof.
  intros Hx. destruct password.
  - pose proof (lfs_password_not_earlier x) as H. skip_refused H.
    rewrite (lfs_match true x Hx). reflexivity.
  - pose proof (lfs_username_not_earlier x) as H. skip_refused H.
    rewrite (lfs_match false x Hx). reflexivity.
Qed.

Lemma lfs_prompt_identifier_witness :
  identifier
    (parsePrompt (lfs_prompt false "https://example.org/r.git")
       initial_vars).1
  = Some "https://example.org/r.git".
Proof.
  rewrite (lfs_prompt_identifier false "https://example.org/r.git"
             initial_vars); reflexivity.
Defined.

(** ** The prompt of the agent *)

Lemma agent_match (x f : string) :
  no_newline x = true ->
  no_newline f = true ->
  match_ re_use_key (agent_prompt x f) = Some [(1, x +:+ "?")].
Proof.
  intros Hx Hf. unfold re_use_key, agent_prompt.
  cbn [cat]. rewrite match_anchored. rewrite rmatch_seq, lit_run.
  rewrite <- (append_assoc x "?" _).
  cbn [rmatch].
  erewrite (many_greedy_split (x +:+ "?"));
    [reflexivity | rewrite no_newline_app, Hx; reflexivity |].
  simpl. rewrite Nat.sub_0_r, prefix_app.
  change ("" +:+ f +:+ ".") with (f +:+ ".").
  apply (many_greedy_last f "."); [exact Hf | reflexivity..].
Qed.

(** A prompt that ends with a full stop is refused by the patterns that
    need a colon and a space at the end. *)
Lemma full_stop_tail (a p t : string) :
  a +:+ "." <> p +:+ (t +:+ "d: ") /\
  a +:+ "." <> p +:+ (t +:+ "): ") /\
  a +:+ "." <> p +:+ (t +:+ nl) /\
  a +:+ "." <> p +:+ "': ".
Proof.
  repeat split.
  - change "d: " with ("d:" +:+ " "). rewrite <- (append_assoc t "d:" " ").
    apply tails_clash; [reflexivity | discriminate].
  - change "): " with ("):" +:+ " "). rewrite <- (append_assoc t "):" " ").
    apply tails_clash; [reflexivity | discriminate].
  - apply tails_clash; [reflexivity | discriminate].
  - change "': " with ("':" +:+ " ").
    apply tails_clash; [reflexivity | discriminate].
Qed.

Lemma ssh_password_refuses_full_stop (a : string) :
  match_ re_ssh_password (a +:+ ".") = None.
Proof.
  destruct (match_ re_ssh_password (a +:+ ".")) as [res|] eqn:E;
    [|reflexivity].
  apply ssh_password_tail in E. destruct E as (p & t & E).
  destruct (full_stop_tail a p t) as (H1 & H2 & H3 & _).
  destruct E as [E|[E|E]]; [elim (H1 E) | elim (H2 E) | elim (H3 E)].
Qed.

Lemma pin_refuses_full_stop (a : string) :
  match_ re_pin (a +:+ ".") = None.
Proof.
  destruct (match_ re_pin (a +:+ ".")) as [res|] eqn:E; [|reflexivity].
  unfold match_ in E.
  change re_pin
    with (cat ([lit "Enter PIN for '"; Group 1 (Many true)]
               ++ [lit "': "; Eol])) in E.
  apply needs_tail in E. destruct E as [p E].
  destruct (full_stop_tail a p "': ") as (_ & _ & H3 & H4).
  destruct E as [E|E]; [elim (H4 E) | elim (H3 E)].
Qed.

Lemma agent_prompt_tail (x f : string) :
  exists a, agent_prompt x f = a +:+ ".".
Proof.
  exists ("Allow use of key " +:+ x +:+ "?" +:+ nl +:+ "Key fingerprint "
          +:+ f).
  unfold agent_prompt. now rewrite !append_assoc.
Qed.

Lemma agent_not_earlier (x f : string) :
  Forall (fun re => match_ re (agent_prompt x f) = None)
    [re_ssh_password; re_password_change; re_key_passphrase;
     re_add_passphrase; re_bad_passphrase; re_pin; re_shared_connection;
     re_open; re_forward; re_disable_mux].
Proof.
  split_Forall.
  - destruct (agent_prompt_tail x f) as [a ->].
    apply ssh_password_refuses_full_stop.
  - unfold agent_prompt. refuse_at_start re_password_change.
  - unfold agent_prompt. refuse_at_start re_key_passphrase.
  - unfold agent_prompt. refuse_at_start re_add_passphrase.
  - unfold agent_prompt. refuse_at_start re_bad_passphrase.
  - destruct (agent_prompt_tail x f) as [a ->].
    apply pin_refuses_full_stop.
  - unfold agent_prompt. refuse_at_start re_shared_connection.
  - unfold agent_prompt. refuse_at_start re_open.
  - unfold agent_prompt. refuse_at_start re_forward.
  - unfold agent_prompt. refuse_at_start re_disable_mux.
Qed.

(** X18.  For every key name [x] and fingerprint [f] without a line feed,
    the two-line prompt of [ssh-agent.c] is classified as a confirmation
    that ignores the wallet; the identifier is [x] followed by the
    question mark of the prompt, because the question mark of the pattern
    on line 139 is a quantifier, as on line 130. *)
Theorem agent_prompt_identifier (x f : string) (v : Vars) :
  no_newline x = true ->
  no_newline f = true ->
  parsePrompt (agent_prompt x f) v
  = (mkVars (Some (x +:+ "?")) true TypeConfirm, []).
Proof.
  intros Hx Hf. pose proof (agent_not_earlier x f) as H. skip_refused H.
  rewrite (agent_match x f Hx Hf). reflexivity.
Qed.

Lemma agent_prompt_identifier_witness :
  identifier
    (parsePrompt (agent_prompt "/home/u/.ssh/id_rsa" "SHA256:abc")
       initial_vars).1
  = Some "/home/u/.ssh/id_rsa?".
Proof.
  rewrite (agent_prompt_identifier "/home/u/.ssh/id_rsa" "SHA256:abc"
             initial_vars); reflexivity.
Defined.
